(** * notes-cli: the note file format, its parser and the tree walker

  A shallow embedding of [note.go] (package [notes]): [NewNote], [Create],
  [ReadBodyN], [LoadNote] and [WalkNotes], together with the parts of the
  Go standard library they call ([strings], [path/filepath], [bufio],
  [time], [os]) at the level of detail the functions depend on.

  Go strings are byte sequences: they are modelled by [string], whose
  characters are the 8-bit [ascii].  Text is UTF-8: [strings.TrimSpace]
  takes off the white space of Unicode, read rune by rune.  Errors are
  values built by [errors.New]/[errors.Errorf]/[errors.Wrap]; they are
  modelled by the inductive [error], which keeps the message text of the
  source. *)

From Stdlib Require Import ZArith Ascii String Lia Bool.
From stdpp Require Import base option list gmap strings.

Local Open Scope Z_scope.
Local Open Scope stdpp_scope.

(** ** Byte strings *)

Module Str.

Definition LF : ascii := "010"%char.
Definition CR : ascii := "013"%char.

Fixpoint take (n : nat) (s : string) : string :=
  match n, s with
  | S n', String c s' => String c (take n' s')
  | _, _ => ""
  end.

Fixpoint drop (n : nat) (s : string) : string :=
  match n, s with
  | S n', String _ s' => drop n' s'
  | _, _ => s
  end.

(** [len(s)] as a Go [int]. *)
Definition len (s : string) : Z := Z.of_nat (String.length s).

(** [mem c s]: the byte [c] occurs in [s]. *)
Fixpoint mem (c : ascii) (s : string) : bool :=
  match s with
  | "" => false
  | String a s' => if decide (a = c) then true else mem c s'
  end.

(** [all p s]: every byte of [s] satisfies [p]. *)
Fixpoint all (p : ascii -> bool) (s : string) : bool :=
  match s with
  | "" => true
  | String a s' => p a && all p s'
  end.

(** The last byte of [s], if any. *)
Fixpoint last (s : string) : option ascii :=
  match s with
  | "" => None
  | String a "" => Some a
  | String _ s' => last s'
  end.

(** [s] without its longest suffix of bytes satisfying [p]. *)
Fixpoint trimRightBy (p : ascii -> bool) (s : string) : string :=
  match s with
  | "" => ""
  | String c s' =>
      match trimRightBy p s' with
      | "" => if p c then "" else String c ""
      | r => String c r
      end
  end.

(** The byte [c] as a number. *)
Definition byte (c : ascii) : N := N_of_ascii c.

(** [s] with its bytes in the opposite order. *)
Fixpoint rev (s : string) : string :=
  match s with
  | "" => ""
  | String c s' => rev s' +:+ String c ""
  end.

(** A rune of one, two or three bytes at the head of [s], where [p1], [p2]
    and [p3] tell which bytes make one: the rest of [s] behind it. *)
Definition headRune (p1 : ascii -> bool) (p2 : ascii -> ascii -> bool)
    (p3 : ascii -> ascii -> ascii -> bool) (s : string) : option string :=
  match s with
  | String c1 s1 =>
      if p1 c1 then Some s1
      else match s1 with
           | String c2 s2 =>
               if p2 c1 c2 then Some s2
               else match s2 with
                    | String c3 s3 => if p3 c1 c2 c3 then Some s3 else None
                    | "" => None
                    end
           | "" => None
           end
  | "" => None
  end.

(** [s] without the runes of [headRune] at its head, taken off one after
    the other. *)
Fixpoint trimRunes (p1 : ascii -> bool) (p2 : ascii -> ascii -> bool)
    (p3 : ascii -> ascii -> ascii -> bool) (s : string) : string :=
  match s with
  | String c1 s1 =>
      if p1 c1 then trimRunes p1 p2 p3 s1
      else match s1 with
           | String c2 s2 =>
               if p2 c1 c2 then trimRunes p1 p2 p3 s2
               else match s2 with
                    | String c3 s3 =>
                        if p3 c1 c2 c3 then trimRunes p1 p2 p3 s3 else s
                    | "" => s
                    end
           | "" => s
           end
  | "" => ""
  end.

End Str.

(** The strings made of the runes of [headRune] only. *)
Inductive runs (p1 : ascii -> bool) (p2 : ascii -> ascii -> bool)
    (p3 : ascii -> ascii -> ascii -> bool) : string -> Prop :=
| runs_nil : runs p1 p2 p3 ""
| runs_1 c s : p1 c = true -> runs p1 p2 p3 s -> runs p1 p2 p3 (String c s)
| runs_2 c1 c2 s :
    p2 c1 c2 = true -> runs p1 p2 p3 s -> runs p1 p2 p3 (String c1 (String c2 s))
| runs_3 c1 c2 c3 s :
    p3 c1 c2 c3 = true -> runs p1 p2 p3 s ->
    runs p1 p2 p3 (String c1 (String c2 (String c3 s))).

(** ** Package [strings] *)

Module strings.

(** [strings.HasPrefix(s, prefix)]. *)
Definition HasPrefix (s prefix : string) : bool := String.prefix prefix s.

(** [strings.HasSuffix(s, suffix)]:
    [len(s) >= len(suffix) && s[len(s)-len(suffix):] == suffix]. *)
Definition HasSuffix (s suffix : string) : bool :=
  (String.length suffix <=? String.length s)%nat &&
  bool_decide (Str.drop (String.length s - String.length suffix) s = suffix).

(** [strings.TrimSuffix(s, suffix)]. *)
Definition TrimSuffix (s suffix : string) : string :=
  if HasSuffix s suffix
  then Str.take (String.length s - String.length suffix) s
  else s.

(** White space below [utf8.RuneSelf], the table [asciiSpace]: ['\t'],
    ['\n'], ['\v'], ['\f'], ['\r'] and [' ']. *)
Definition asciiSpace (c : ascii) : bool :=
  let n := Str.byte c in
  ((9 <=? n) && (n <=? 13) || (n =? 32))%N.

(** The white space of two bytes in UTF-8: U+0085 (next line) is [C2 85]
    and U+00A0 (no-break space) is [C2 A0]. *)
Definition space2 (c1 c2 : ascii) : bool :=
  let n1 := Str.byte c1 in
  let n2 := Str.byte c2 in
  ((n1 =? 0xC2) && ((n2 =? 0x85) || (n2 =? 0xA0)))%N.

(** The white space of three bytes in UTF-8: U+1680 is [E1 9A 80],
    U+2000 to U+200A are [E2 80 80] to [E2 80 8A], U+2028 and U+2029 are
    [E2 80 A8] and [E2 80 A9], U+202F is [E2 80 AF], U+205F is [E2 81 9F]
    and U+3000 is [E3 80 80]. *)
Definition space3 (c1 c2 c3 : ascii) : bool :=
  let n1 := Str.byte c1 in
  let n2 := Str.byte c2 in
  let n3 := Str.byte c3 in
  ((n1 =? 0xE1) && (n2 =? 0x9A) && (n3 =? 0x80)
   || (n1 =? 0xE2) && (n2 =? 0x80) &&
      ((0x80 <=? n3) && (n3 <=? 0x8A) || (n3 =? 0xA8) || (n3 =? 0xA9) || (n3 =? 0xAF))
   || (n1 =? 0xE2) && (n2 =? 0x81) && (n3 =? 0x9F)
   || (n1 =? 0xE3) && (n2 =? 0x80) && (n3 =? 0x80))%N.

(** [utf8.DecodeRuneInString(s)] is a rune that [unicode.IsSpace] accepts:
    the rest of [s] behind it.  The runes of [unicode.IsSpace] are U+0009 to
    U+000D, U+0020, U+0085, U+00A0, U+1680, U+2000 to U+200A, U+2028,
    U+2029, U+202F, U+205F and U+3000; only the shortest encoding of a rune
    decodes to it, every other byte sequence starts with a rune that is no
    white space or with [utf8.RuneError]. *)
Definition spaceRune (s : string) : option string :=
  Str.headRune asciiSpace space2 space3 s.

(** [strings.TrimLeftFunc(s, unicode.IsSpace)]: the white-space runes at
    the head of [s] are taken off one after the other. *)
Definition TrimLeft (s : string) : string :=
  Str.trimRunes asciiSpace space2 space3 s.

(** [strings.TrimRightFunc(s, unicode.IsSpace)]: the white-space runes at
    the end of [s] are taken off one after the other.
    [utf8.DecodeLastRuneInString] reads a rune from the last byte backwards:
    a byte below [utf8.RuneSelf] is a rune of its own, otherwise the rune
    starts at the nearest byte that is no continuation byte and has to end
    with the string.  On the reversed string that is a white-space encoding
    read backwards at the head. *)
Definition TrimRight (s : string) : string :=
  Str.rev (Str.trimRunes asciiSpace
             (fun c1 c2 => space2 c2 c1)
             (fun c1 c2 c3 => space3 c3 c2 c1) (Str.rev s)).

(** [strings.TrimSpace(s)]: [s] without the white space, as Unicode defines
    it, at its head and at its end. *)
Definition TrimSpace (s : string) : string := TrimRight (TrimLeft s).

(** [s] is white space throughout. *)
Definition blank (s : string) : bool := bool_decide (TrimLeft s = "").

(** [strings.Split(s, sep)] for a one-byte separator: the pieces of [s]
    between consecutive separators; never the empty list. *)
Fixpoint Split (s : string) (sep : ascii) : list string :=
  match s with
  | "" => [""]
  | String c s' =>
      if decide (c = sep) then "" :: Split s' sep
      else match Split s' sep with
           | h :: t => String c h :: t
           | [] => [String c ""]
           end
  end.

(** [strings.Join(elems, sep)]. *)
Fixpoint Join (elems : list string) (sep : string) : string :=
  match elems with
  | [] => ""
  | [x] => x
  | x :: rest => x +:+ sep +:+ Join rest sep
  end.

(** [strings.Repeat(s, count)]. *)
Fixpoint Repeat (s : string) (count : nat) : string :=
  match count with
  | O => ""
  | S n => s +:+ Repeat s n
  end.

(** [strings.Replace(s, old, new, -1)] for one-byte [old] and [new]. *)
Fixpoint Replace (s : string) (old new : ascii) : string :=
  match s with
  | "" => ""
  | String c s' =>
      String (if decide (c = old) then new else c) (Replace s' old new)
  end.

End strings.

(** A continuation byte of UTF-8, [10xxxxxx]. *)
Definition continuation (c : ascii) : bool :=
  ((0x80 <=? Str.byte c) && (Str.byte c <=? 0xBF))%N.

(** [s] is white space throughout: a sequence of encodings of white-space
    runes. *)
Definition spaces : string -> Prop :=
  runs strings.asciiSpace strings.space2 strings.space3.

(** The text of a newline, as in the format strings of the source. *)
Definition nl : string := String Str.LF "".

(** ** Errors *)

(** A non-nil Go [error].  [New] is [errors.New]/[errors.Errorf] with the
    formatted message, [Wrap] is [errors.Wrap]/[errors.Wrapf] around a
    non-nil cause.  The remaining constructors are the library's own values:
    [io.EOF], [bufio.ErrTooLong], [filepath.SkipDir], a failed system call
    ([*os.PathError], named by its errno) and [*time.ParseError]. *)
Inductive error : Type :=
| EOF
| ErrTooLong
| SkipDir
| Errno (code : string)
| TimeParseError (value : string)
| New (msg : string)
| Wrap (cause : error) (msg : string).

Global Instance error_eq_dec : EqDecision error.
Proof. solve_decision. Defined.

(** [errors.Wrap(err, msg)]: nil when [err] is nil. *)
Definition wrap (err : option error) (msg : string) : option error :=
  match err with
  | Some e => Some (Wrap e msg)
  | None => None
  end.

(** The result of a Go function returning [(T, error)]. *)
Inductive result (T : Type) : Type :=
| Ok (v : T)
| Err (e : error).
Arguments Ok {T} v.
Arguments Err {T} e.

(** ** Package [time] *)

Module time.

(** A [time.Time] by its civil reading in its own location: the calendar
    date and clock time shown there, the nanoseconds within the second and
    the location's offset east of UTC in seconds. *)
Record Time : Type := mkTime {
  year : Z; month : Z; day : Z;
  hour : Z; minute : Z; second : Z;
  nsec : Z;
  offset : Z
}.

(** The zero value [time.Time{}]: January 1, year 1, 00:00:00 UTC. *)
Definition zero : Time := mkTime 1 1 1 0 0 0 0 0.

Definition isLeap (y : Z) : bool :=
  (y mod 4 =? 0) && (negb (y mod 100 =? 0) || (y mod 400 =? 0)).

Definition daysIn (m y : Z) : Z :=
  if m =? 2 then (if isLeap y then 29 else 28)
  else if (m =? 4) || (m =? 6) || (m =? 9) || (m =? 11) then 30
  else 31.

(** Days from 1970-01-01 to the civil date [y]-[m]-[d] (proleptic
    Gregorian calendar). *)
Definition daysFromCivil (y m d : Z) : Z :=
  let y' := if m <=? 2 then y - 1 else y in
  let era := y' / 400 in
  let yoe := y' - era * 400 in
  let doy := (153 * (if 2 <? m then m - 3 else m + 9) + 2) / 5 + d - 1 in
  let doe := yoe * 365 + yoe / 4 - yoe / 100 + doy in
  era * 146097 + doe - 719468.

(** Seconds from 1970-01-01T00:00:00Z to the instant [t] denotes. *)
Definition unix (t : Time) : Z :=
  daysFromCivil (year t) (month t) (day t) * 86400
  + hour t * 3600 + minute t * 60 + second t - offset t.

(** [t.IsZero()]: [t] is the instant January 1, year 1, 00:00:00 UTC. *)
Definition IsZero (t : Time) : bool :=
  (unix t =? unix zero) && (nsec t =? 0).

(** A civil reading that a clock can show. *)
Definition valid (t : Time) : bool :=
  (1 <=? month t) && (month t <=? 12) &&
  (1 <=? day t) && (day t <=? daysIn (month t) (year t)) &&
  (0 <=? hour t) && (hour t <? 24) &&
  (0 <=? minute t) && (minute t <? 60) &&
  (0 <=? second t) && (second t <? 60) &&
  (0 <=? nsec t) && (nsec t <? 1000000000).

Definition digit (d : Z) : ascii := ascii_of_nat (48 + Z.to_nat d).

(** The [width] low decimal digits of [x], most significant first. *)
Fixpoint fixedDigits (width : nat) (x : Z) : string :=
  match width with
  | O => ""
  | S w => fixedDigits w (x / 10) +:+ String (digit (x mod 10)) ""
  end.

(** The number of decimal digits of [u] (0 for 0). *)
Fixpoint ndigits (fuel : nat) (u : Z) : nat :=
  match fuel with
  | O => O
  | S f => if u <=? 0 then O else S (ndigits f (u / 10))
  end.

(** [appendInt(b, x, width)]: [x] in decimal, zero-padded to [width]
    digits, with a leading minus sign when negative. *)
Definition appendInt (x : Z) (width : nat) : string :=
  let u := Z.abs x in
  (if x <? 0 then "-" else "") +:+
  fixedDigits (Nat.max width (ndigits (S (Z.to_nat (Z.log2 u))) u)) u.

(** The zone of [Z07:00]: [Z] for UTC, otherwise the offset in hours and
    minutes. *)
Definition formatZone (off : Z) : string :=
  if off =? 0 then "Z"
  else
    let zone := Z.quot off 60 in
    (if zone <? 0 then "-" else "+") +:+
    appendInt (Z.quot (Z.abs zone) 60) 2 +:+ ":" +:+
    appendInt (Z.rem (Z.abs zone) 60) 2.

(** [t.Format(time.RFC3339)], layout [2006-01-02T15:04:05Z07:00]. *)
Definition Format (t : Time) : string :=
  appendInt (year t) 4 +:+ "-" +:+ appendInt (month t) 2 +:+ "-" +:+
  appendInt (day t) 2 +:+ "T" +:+ appendInt (hour t) 2 +:+ ":" +:+
  appendInt (minute t) 2 +:+ ":" +:+ appendInt (second t) 2 +:+
  formatZone (offset t).

Definition digitVal (c : ascii) : option Z :=
  let n := nat_of_ascii c in
  if (48 <=? n)%nat && (n <=? 57)%nat then Some (Z.of_nat n - 48) else None.

(** Exactly [n] decimal digits at the head of [s]: their value (on top of
    [acc]) and the rest of [s]. *)
Fixpoint readDigits (n : nat) (acc : Z) (s : string) : option (Z * string) :=
  match n with
  | O => Some (acc, s)
  | S n' =>
      match s with
      | String c s' =>
          match digitVal c with
          | Some d => readDigits n' (acc * 10 + d) s'
          | None => None
          end
      | "" => None
      end
  end.

(** The literal byte [c] at the head of [s]. *)
Definition expect (c : ascii) (s : string) : option string :=
  match s with
  | String a s' => if decide (a = c) then Some s' else None
  | "" => None
  end.

(** The digits of a fractional second: nanoseconds read off the first
    [scale] digits (further digits are dropped) and the rest of the input
    behind the last digit. *)
Fixpoint readFraction (scale : nat) (acc : Z) (s : string) : Z * string :=
  match s with
  | String c s' =>
      match digitVal c with
      | Some d =>
          match scale with
          | O => readFraction O acc s'
          | S k => readFraction k (acc + d * 10 ^ Z.of_nat k) s'
          end
      | None => (acc, s)
      end
  | "" => (acc, s)
  end.

(** A fractional second may follow the seconds field when parsing, even
    though the layout has none: a period or comma and at least one digit. *)
Definition parseFraction (s : string) : Z * string :=
  match s with
  | String p (String c s') =>
      if (bool_decide (p = "."%char) || bool_decide (p = ","%char))
         && bool_decide (is_Some (digitVal c))
      then readFraction 9 0 (String c s')
      else (0, s)
  | _ => (0, s)
  end.

(** [getnum(s, fixed)]: the number of one or two digits at the head of
    [s] and the rest of [s]; with [fixed], two digits are required. *)
Definition getnum (s : string) (fixed : bool) : option (Z * string) :=
  match s with
  | String c1 s1 =>
      match digitVal c1 with
      | Some d1 =>
          match s1 with
          | String c2 s2 =>
              match digitVal c2 with
              | Some d2 => Some (d1 * 10 + d2, s2)
              | None => if fixed then None else Some (d1, s1)
              end
          | "" => if fixed then None else Some (d1, s1)
          end
      | None => None
      end
  | "" => None
  end.

(** The zone [Z07:00]: a leading [Z] stands for UTC; otherwise six bytes
    are read, a sign, two digits, a colon at index 3 and two digits, and
    the ranges are tested with [hr > 24] and [mm > 60], so that offsets of
    24 hours or 60 minutes pass.  The layout ends here: nothing may
    follow. *)
Definition parseZone (s : string) : option Z :=
  match s with
  | String c s' =>
      if decide (c = "Z"%char) then (if decide (s' = "") then Some 0 else None)
      else
        match s' with
        | String h1 (String h2 (String colon (String m1 (String m2 rest)))) =>
            if decide (colon = ":"%char) then
              '(hr, _) ← getnum (String h1 (String h2 "")) true;
              '(mm, _) ← getnum (String m1 (String m2 "")) true;
              if (24 <? hr) || (60 <? mm) then None
              else if negb (bool_decide (c = "+"%char) || bool_decide (c = "-"%char))
              then None
              else if decide (rest = "")
              then Some ((if decide (c = "-"%char) then -1 else 1) * ((hr * 60 + mm) * 60))
              else None
            else None
        | _ => None
        end
  | "" => None
  end.

(** [time.Parse(time.RFC3339, value)]; [None] stands for the
    [*time.ParseError] (malformed text or a field out of range).  The year
    has four digits; month, day, minute and second have two
    ([getnum(value, true)]), the hour one or two ([getnum(value, false)]). *)
Definition Parse (value : string) : option Time :=
  '(y, s) ← readDigits 4 0 value;
  s ← expect "-"%char s;
  '(mo, s) ← getnum s true;
  s ← expect "-"%char s;
  '(d, s) ← getnum s true;
  s ← expect "T"%char s;
  '(h, s) ← getnum s false;
  s ← expect ":"%char s;
  '(mi, s) ← getnum s true;
  s ← expect ":"%char s;
  '(sec, s) ← getnum s true;
  let '(ns, s) := parseFraction s in
  off ← parseZone s;
  let t := mkTime y mo d h mi sec ns off in
  if valid t then Some t else None.

End time.

(** ** Package [path/filepath] (Unix) *)

Module filepath.

Definition isSeparator (c : ascii) : bool := bool_decide (c = "/"%char).

(** One path element processed by [Clean]; [out] is the stack of elements
    kept so far, innermost first.  Empty and [.] elements are dropped, [..]
    removes the element before it, stays if there is none to remove in a
    relative path, and is dropped at the root. *)
Definition cleanStep (rooted : bool) (out : list string) (elem : string) : list string :=
  if bool_decide (elem = "") || bool_decide (elem = ".") then out
  else if bool_decide (elem = "..") then
    match out with
    | top :: out' => if bool_decide (top = "..") then elem :: out else out'
    | [] => if rooted then [] else [elem]
    end
  else elem :: out.

(** [filepath.Clean(path)]: the shortest path name equivalent to [path] by
    purely lexical processing. *)
Definition Clean (path : string) : string :=
  if decide (path = "") then "."
  else
    let rooted := strings.HasPrefix path "/" in
    let out := strings.Join (rev (fold_left (cleanStep rooted) (strings.Split path "/"%char) [])) "/" in
    if rooted then "/" +:+ out
    else if decide (out = "") then "." else out.

(** [filepath.Join(elem...)]: the elements from the first non-empty one on,
    joined by the separator and cleaned; the empty string if all are empty. *)
Fixpoint Join (elem : list string) : string :=
  match elem with
  | [] => ""
  | e :: rest => if decide (e = "") then Join rest else Clean (strings.Join elem "/")
  end.

(** [filepath.Split(path)]: the part up to and including the final
    separator, and the part behind it. *)
Fixpoint Split (path : string) : string * string :=
  match path with
  | "" => ("", "")
  | String c s' =>
      let '(d, f) := Split s' in
      if decide (d = "")
      then (if isSeparator c then (String c "", f) else ("", String c f))
      else (String c d, f)
  end.

(** [filepath.Dir(path)]: all but the last element of [path], cleaned. *)
Definition Dir (path : string) : string := Clean (Split path).1.

(** [filepath.Base(path)]: the last element of [path], trailing separators
    removed first; [.] for the empty path, the separator for a path of
    separators only. *)
Definition Base (path : string) : string :=
  if decide (path = "") then "."
  else
    let f := (Split (Str.trimRightBy isSeparator path)).2 in
    if decide (f = "") then "/" else f.

(** The extension of a single path element: its suffix from the last dot. *)
Fixpoint extOf (f : string) : string :=
  match f with
  | "" => ""
  | String c s' =>
      match extOf s' with
      | "" => if decide (c = "."%char) then f else ""
      | e => e
      end
  end.

(** [filepath.Ext(path)]: the suffix beginning at the final dot in the final
    element of [path]; empty if there is no dot. *)
Definition Ext (path : string) : string := extOf (Split path).2.

End filepath.

(** ** Files and the file system *)

(** The bytes a file delivers when read from its start, and how reading
    ends behind them: [None] is a plain end of file ([io.EOF]), [Some e] a
    read failure [e]. *)
Record Stream : Type := mkStream {
  data : string;
  fault : option error
}.

(** What reading past the data of [f] returns. *)
Definition ending (f : Stream) : error :=
  match fault f with
  | Some e => e
  | None => EOF
  end.

Module os.

(** The state of the file system: the regular files with what they hold,
    and the directories, both by path name.  The root, the current
    directory and its ancestors need not be listed. *)
Record FS : Type := mkFS {
  files : gmap string Stream;
  dirs : gset string
}.

Definition implicitDir (path : string) : bool :=
  bool_decide (path = "/") || bool_decide (path = ".") ||
  forallb (fun e => bool_decide (e = "..")) (strings.Split path "/"%char).

Definition IsDir (fs : FS) (path : string) : bool :=
  bool_decide (path ∈ dirs fs) || implicitDir path.

Definition IsFile (fs : FS) (path : string) : bool :=
  bool_decide (is_Some (files fs !! path)).

(** [os.Stat(path)]: whether the entry is a directory, or the error. *)
Definition Stat (fs : FS) (path : string) : result bool :=
  if IsDir fs path then Ok true
  else if IsFile fs path then Ok false
  else Err (Errno "ENOENT").

(** The directory that holds [path]: the path up to its last element,
    without the separator in between; [None] when that is the root or the
    current directory. *)
Definition parent (path : string) : option string :=
  let d := (filepath.Split (Str.trimRightBy filepath.isSeparator path)).1 in
  if (1 <? String.length d)%nat then Some (Str.take (String.length d - 1) d)
  else None.

(** [os.Mkdir(path, perm)]. *)
Definition Mkdir (path : string) (fs : FS) : FS * option error :=
  if decide (path = "") then (fs, Some (Errno "ENOENT"))
  else if IsDir fs path || IsFile fs path then (fs, Some (Errno "EEXIST"))
  else
    match parent path with
    | Some par =>
        if IsDir fs par then (mkFS (files fs) ({[path]} ∪ dirs fs), None)
        else if IsFile fs par then (fs, Some (Errno "ENOTDIR"))
        else (fs, Some (Errno "ENOENT"))
    | None => (mkFS (files fs) ({[path]} ∪ dirs fs), None)
    end.

(** [os.MkdirAll(path, perm)]: nothing to do for an existing directory, an
    error for an existing file; otherwise the parent is made first, then
    [path] itself.  The recursion is on the length of the path. *)
Fixpoint MkdirAllRec (fuel : nat) (path : string) (fs : FS) : FS * option error :=
  match Stat fs path with
  | Ok true => (fs, None)
  | Ok false => (fs, Some (Errno "ENOTDIR"))
  | Err _ =>
      let mk fs1 :=
        match Mkdir path fs1 with
        | (fs2, Some e) => if IsDir fs2 path then (fs2, None) else (fs2, Some e)
        | (fs2, None) => (fs2, None)
        end in
      match parent path with
      | Some par =>
          match fuel with
          | O => (fs, Some (Errno "ENAMETOOLONG"))
          | S fuel' =>
              match MkdirAllRec fuel' par fs with
              | (fs1, Some e) => (fs1, Some e)
              | (fs1, None) => mk fs1
              end
          end
      | None => mk fs
      end
  end.

Definition MkdirAll (path : string) (fs : FS) : FS * option error :=
  MkdirAllRec (String.length path) path fs.

(** [os.Open(path)] for reading.  A directory opens, but reading it fails. *)
Definition Open (fs : FS) (path : string) : result Stream :=
  match files fs !! path with
  | Some f => Ok f
  | None =>
      if IsDir fs path then Ok (mkStream "" (Some (Errno "EISDIR")))
      else Err (Errno "ENOENT")
  end.

(** [ioutil.WriteFile(filename, data, perm)]: creates or truncates the
    file, which must lie in an existing directory. *)
Definition WriteFile (filename : string) (content : string) (fs : FS) : FS * option error :=
  if IsDir fs filename then (fs, Some (Errno "EISDIR"))
  else
    let held :=
      match parent filename with
      | Some par => IsDir fs par
      | None => true
      end in
    if held then (mkFS (<[filename := mkStream content None]> (files fs)) (dirs fs), None)
    else (fs, Some (Errno "ENOENT")).

End os.

(** ** Notes *)

(** Modelled from the spec: the shared configuration, declared outside
    [note.go]; it exposes the store root and the editor path (empty when no
    editor is configured). *)
Record Config : Type := mkConfig {
  HomePath : string;
  EditorPath : string
}.

(** [type Note struct].  A nil [Tags] slice is [None]; an empty, non-nil
    one is [Some []]. *)
Record Note : Type := mkNote {
  Cfg : Config;
  Category : string;
  Tags : option (list string);
  Created : time.Time;
  File : string;
  Title : string
}.

Definition DirPath (note : Note) : string :=
  filepath.Join [HomePath (Cfg note); Category note].

Definition FilePath (note : Note) : string :=
  filepath.Join [HomePath (Cfg note); Category note; File note].

Definition RelFilePath (note : Note) : string :=
  filepath.Join [Category note; File note].

(** The body of the loops over the pieces of a tags string, in [NewNote]
    and in [LoadNote]: the piece is trimmed and appended unless empty. *)
Definition appendTag (ts : list string) (t : string) : list string :=
  let t := strings.TrimSpace t in
  if decide (t = "") then ts else ts ++ [t].

Definition collectTags (pieces : list string) : list string :=
  fold_left appendTag pieces [].

(** [NewNote(cat, tags, file, title, cfg)]; [now] is what [time.Now()]
    returns. *)
Definition NewNote (now : time.Time) (cat tags file title : string) (cfg : Config) : result Note :=
  if decide (cat = "") then Err (New "Category cannot be empty")
  else if decide (file = "") then Err (New "File name cannot be empty")
  else
    let ts := collectTags (strings.Split tags ","%char) in
    let file := strings.Replace file " "%char "-"%char in
    let file := if strings.HasSuffix file ".md" then file else file +:+ ".md" in
    Ok (mkNote cfg cat (Some ts) now file title).

(** The title [Create] writes: the note's, or the file name without its
    extension when that is empty. *)
Definition titleOf (note : Note) : string :=
  if decide (Title note = "")
  then strings.TrimSuffix (File note) (filepath.Ext (File note))
  else Title note.

(** The buffer [b] that [Create] fills: title, bar and metadata. *)
Definition render (note : Note) : string :=
  let title := titleOf note in
  (title +:+ nl) +:+
  (strings.Repeat "=" (String.length title) +:+ nl) +:+
  ("- Category: " +:+ Category note +:+ nl) +:+
  ("- Tags: " +:+ strings.Join (default [] (Tags note)) ", " +:+ nl) +:+
  ("- Created: " +:+ time.Format (Created note) +:+ nl +:+ nl).

(** [note.Create()], on the file system [fs]: the file system it leaves and
    the error it returns. *)
Definition Create (note : Note) (fs : os.FS) : os.FS * option error :=
  let b := render note in
  let d := DirPath note in
  match os.MkdirAll d fs with
  | (fs1, Some err) =>
      (fs1, Some (Wrap err ("Could not create category directory '" +:+ d +:+ "'")))
  | (fs1, None) =>
      let p := filepath.Join [d; File note] in
      match os.Stat fs1 p with
      | Ok _ =>
          (fs1, Some (New ("Cannot create new note since file '" +:+ RelFilePath note
                           +:+ "' already exists. Please edit it")))
      | Err _ =>
          let '(fs2, err) := os.WriteFile p b fs1 in
          (fs2, wrap err "Cannot write note to file")
      end
  end.

(** ** Package [bufio]: reading a stream by lines *)

Module bufio.

(** The data cut behind every line feed: the complete lines, each with its
    line feed, and the unterminated rest (possibly empty). *)
Fixpoint cut (s : string) : list string * string :=
  match s with
  | "" => ([], "")
  | String c s' =>
      let '(ls, tl) := cut s' in
      if decide (c = Str.LF) then (String c "" :: ls, tl)
      else match ls with
           | l :: ls' => (String c l :: ls', tl)
           | [] => ([], String c tl)
           end
  end.

(** The unread part of a [bufio.Reader]: [ReadString('\n')] and
    [ReadBytes('\n')] return the next of the [pending] lines with a nil
    error, and behind the last of them the [rest] together with the ending
    of the stream. *)
Record Reader : Type := mkReader {
  pending : list string;
  rest : string;
  stop : error
}.

Definition NewReader (f : Stream) : Reader :=
  let '(ls, tl) := cut (data f) in mkReader ls tl (ending f).

(** All bytes that are still unread. *)
Definition unread (r : Reader) : string :=
  fold_right String.append (rest r) (pending r).

(** [bufio.MaxScanTokenSize]: the size of the largest buffer a [Scanner]
    allocates. *)
Definition MaxScanTokenSize : Z := 64 * 1024.

(** [dropCR]: a line without its trailing carriage return. *)
Fixpoint dropCR (s : string) : string :=
  match s with
  | "" => ""
  | String c "" => if decide (c = Str.CR) then "" else s
  | String c s' => String c (dropCR s')
  end.

(** A line without its line feed. *)
Definition chomp (l : string) : string :=
  Str.take (String.length l - 1) l.

End bufio.

(** [io.CopyN(dst, src, n)] from the unread bytes of a reader: what is
    appended to [dst], and the error.  Fewer than [n] bytes before the
    stream ends give the ending of the stream as the error ([io.EOF] for a
    plain end of file). *)
Definition CopyN (r : bufio.Reader) (n : Z) : string * option error :=
  let src := bufio.unread r in
  if n <=? Str.len src then (Str.take (Z.to_nat n) src, None)
  else (src, Some (bufio.stop r)).

(** ** [ReadBodyN] *)

(** The three flags of the metadata loop after the line [t]. *)
Definition observe (saw : bool * bool * bool) (t : string) : bool * bool * bool :=
  let '(sawCat, sawTags, sawCreated) := saw in
  if strings.HasPrefix t "- Category: " then (true, sawTags, sawCreated)
  else if strings.HasPrefix t "- Tags:" then (sawCat, true, sawCreated)
  else if strings.HasPrefix t "- Created: " then (sawCat, sawTags, true)
  else saw.

Definition sawAll (saw : bool * bool * bool) : bool :=
  let '(sawCat, sawTags, sawCreated) := saw in
  sawCat && sawTags && sawCreated.

Definition errMetadata (rel : string) (cause : error) : error :=
  Wrap cause ("Cannot read metadata of note file. Some metadata may be missing in '"
              +:+ rel +:+ "'").

(** The loop [// Skip metadata]: the reader behind the line that completes
    the three markers, or the error. *)
Fixpoint skipMetadata (rel : string) (saw : bool * bool * bool)
    (pending : list string) (tl : string) (stop : error) : result bufio.Reader :=
  match pending with
  | t :: pending' =>
      (* ReadString returns (t, nil) *)
      let saw := observe saw t in
      if sawAll saw then Ok (bufio.mkReader pending' tl stop)
      else skipMetadata rel saw pending' tl stop
  | [] =>
      (* ReadString returns (tl, stop) *)
      let saw := observe saw tl in
      if sawAll saw then Ok (bufio.mkReader [] "" stop)
      else Err (errMetadata rel stop)
  end.

(** The loop [// Skip empty lines]: the buffer it leaves and the reader
    behind the line it kept.  A read that returns an error ends the loop;
    what came with the error is not kept. *)
Fixpoint skipEmpty (pending : list string) (tl : string) (stop : error) : string * bufio.Reader :=
  match pending with
  | b :: pending' =>
      (* ReadBytes returns (b, nil) *)
      if 1 <? Str.len b then (b, bufio.mkReader pending' tl stop)
      else skipEmpty pending' tl stop
  | [] =>
      (* ReadBytes returns (tl, stop) *)
      ("", bufio.mkReader [] "" stop)
  end.

(** [ReadBodyN] behind [os.Open]: [None] is the run-time panic of the slice
    expression [buf.Bytes()[:maxBytes]] for a negative [maxBytes]. *)
Definition readBody (rel : string) (r : bufio.Reader) (maxBytes : Z) : option (result string) :=
  match skipMetadata rel (false, false, false) (bufio.pending r) (bufio.rest r) (bufio.stop r) with
  | Err e => Some (Err e)
  | Ok r1 =>
      let '(buf, r2) := skipEmpty (bufio.pending r1) (bufio.rest r1) (bufio.stop r1) in
      let len := Str.len buf in
      if maxBytes <? len then
        (if 0 <=? maxBytes then Some (Ok (Str.take (Z.to_nat maxBytes) buf)) else None)
      else
        let maxBytes := maxBytes - len in
        match CopyN r2 maxBytes with
        | (more, Some err) =>
            if decide (err = EOF) then Some (Ok (buf +:+ more)) else Some (Err err)
        | (more, None) => Some (Ok (buf +:+ more))
        end
  end.

(** [note.ReadBodyN(maxBytes)] on the file system [fs]. *)
Definition ReadBodyN (note : Note) (fs : os.FS) (maxBytes : Z) : option (result string) :=
  match os.Open fs (FilePath note) with
  | Err err => Some (Err (Wrap err "Cannot open note file"))
  | Ok f => readBody (RelFilePath note) (bufio.NewReader f) maxBytes
  end.

(** ** [LoadNote] *)

(** [reTitleBar.MatchString(line)] for the expression [^=+$]: the line is
    one or more [=] and nothing else. *)
Definition reTitleBar (line : string) : bool :=
  negb (bool_decide (line = "")) && Str.all (fun c => bool_decide (c = "="%char)) line.

Definition withTitle (note : Note) (title : string) : Note :=
  mkNote (Cfg note) (Category note) (Tags note) (Created note) (File note) title.

Definition withCategory (note : Note) (cat : string) : Note :=
  mkNote (Cfg note) cat (Tags note) (Created note) (File note) (Title note).

Definition withTags (note : Note) (tags : list string) : Note :=
  mkNote (Cfg note) (Category note) (Some tags) (Created note) (File note) (Title note).

Definition withCreated (note : Note) (t : time.Time) : Note :=
  mkNote (Cfg note) (Category note) (Tags note) t (File note) (Title note).

(** The condition under which the scan loop breaks. *)
Definition complete (note : Note) : bool :=
  negb (bool_decide (Category note = "")) && bool_decide (is_Some (Tags note))
  && negb (time.IsZero (Created note)) && negb (bool_decide (Title note = "")).

Definition errMismatch (c cat : string) : error :=
  New ("Category does not match between file path and file content, in path '"
       +:+ c +:+ "' v.s. in file '" +:+ cat +:+ "'").

Definition errCreated (value line : string) : error :=
  Wrap (TimeParseError value)
       ("Cannot parse created date time as RFC3339 format: " +:+ line).

(** What one pass through the body of the scan loop does. *)
Inductive step : Type :=
| Continue (note : Note) (titleFound : bool)
| Break (note : Note) (titleFound : bool)
| Return (e : error).

Definition next (note : Note) (titleFound : bool) : step :=
  if complete note then Break note titleFound else Continue note titleFound.

(** The body of the scan loop on [line]. *)
Definition scanLine (path : string) (note : Note) (titleFound : bool) (line : string) : step :=
  if negb titleFound then
    if reTitleBar line then
      next (if decide (Title note = "") then withTitle note "(no title)" else note) true
    else next (withTitle note line) titleFound
  else if strings.HasPrefix line "- Category: " then
    let note := withCategory note (strings.TrimSpace (Str.drop 12 line)) in
    let c := filepath.Base (filepath.Dir path) in
    if decide (c = Category note) then next note titleFound
    else Return (errMismatch c (Category note))
  else if strings.HasPrefix line "- Tags:" then
    let tags := strings.Split (strings.TrimSpace (Str.drop 7 line)) ","%char in
    next (withTags note (collectTags tags)) titleFound
  else if strings.HasPrefix line "- Created: " then
    let value := strings.TrimSpace (Str.drop 11 line) in
    match time.Parse value with
    | Some t => next (withCreated note t) titleFound
    | None => Return (errCreated value line)
    end
  else next note titleFound.

(** The loop [for s.Scan()] of a [bufio.Scanner] with the default line
    splitter over the lines of the file, and [s.Err()] behind it.  A line
    that does not fit the scanner's buffer stops the scan with
    [bufio.ErrTooLong]; the end of the stream is met only behind the last
    line feed, before an unterminated last line is delivered. *)
Fixpoint scanLoop (path : string) (note : Note) (titleFound : bool)
    (pending : list string) (tl : string) (stop : error)
    : result (Note * bool * option error) :=
  match pending with
  | l :: pending' =>
      if bufio.MaxScanTokenSize <? Str.len l then Ok (note, titleFound, Some ErrTooLong)
      else
        match scanLine path note titleFound (bufio.dropCR (bufio.chomp l)) with
        | Continue note titleFound => scanLoop path note titleFound pending' tl stop
        | Break note titleFound => Ok (note, titleFound, None)
        | Return e => Err e
        end
  | [] =>
      if bufio.MaxScanTokenSize <=? Str.len tl then Ok (note, titleFound, Some ErrTooLong)
      else
        let serr := if decide (stop = EOF) then None else Some stop in
        if decide (tl = "") then Ok (note, titleFound, serr)
        else
          match scanLine path note titleFound (bufio.dropCR tl) with
          | Continue note titleFound | Break note titleFound => Ok (note, titleFound, serr)
          | Return e => Err e
          end
  end.

Section WithCanonPath.

(** [canonPath] is declared outside [note.go]; it only shapes the path shown
    in error messages. *)
Variable canonPath : string -> string.

Definition errRead (path : string) (cause : error) : error :=
  Wrap cause ("Cannot read note file '" +:+ canonPath path +:+ "'").

Definition errNoTitle (path : string) : error :=
  New ("No title found in note '" +:+ canonPath path
       +:+ "'. Didn't you use '====' bar for h1 title?").

Definition errMissing (path : string) : error :=
  New ("Missing metadata in file '" +:+ canonPath path
       +:+ "'. 'Category', 'Tags', 'Created' are mandatory").

(** [LoadNote(path, cfg)] behind [os.Open]. *)
Definition loadFrom (f : Stream) (path : string) (cfg : Config) : result Note :=
  let note := mkNote cfg "" None time.zero (filepath.Base path) "" in
  let r := bufio.NewReader f in
  match scanLoop path note false (bufio.pending r) (bufio.rest r) (bufio.stop r) with
  | Err e => Err e
  | Ok (note, titleFound, serr) =>
      match serr with
      | Some err => Err (errRead path err)
      | None =>
          if negb titleFound then Err (errNoTitle path)
          else if bool_decide (Category note = "") || bool_decide (Tags note = None)
                  || time.IsZero (Created note)
          then Err (errMissing path)
          else Ok note
      end
  end.

(** [LoadNote(path, cfg)]; [open] is [os.Open] as the caller's world
    answers it. *)
Definition LoadNote (open : string -> result Stream) (path : string) (cfg : Config) : result Note :=
  match open path with
  | Err err => Err (Wrap err "Cannot open note file")
  | Ok f => loadFrom f path cfg
  end.

(** ** [WalkNotes] *)

(** What [filepath.Walk] finds at a path: a file that is not a directory,
    with what [os.Open] answers for it; a directory, with its entries by
    name in the order [readDirNames] lists them, or the error of listing
    it; or an entry for which [os.Lstat] fails. *)
#[warnings="-register-all"]
Inductive node : Type :=
| Regular (opened : result Stream)
| Directory (listing : result (list (string * node)))
| Unreachable (e : error).

(** The part of [os.FileInfo] the walk uses. *)
Record FileInfo : Type := mkInfo {
  Name : string;
  IsDir : bool
}.

Variable cfg : Config.

(** The visitor [pred]: it may keep state, so what it returns may depend on
    the calls made before, which are passed to it. *)
Variable pred : list (string * Note) -> string -> Note -> option error.

(** The function literal [WalkNotes] hands to [filepath.Walk]; [log] holds
    the calls of the visitor so far, [open] answers [os.Open] for [path]. *)
Definition walkFn (open : string -> result Stream) (log : list (string * Note))
    (path : string) (info : FileInfo) (err : option error)
    : list (string * Note) * option error :=
  match err with
  | Some e => (log, Some e)
  | None =>
      if IsDir info then
        if decide (Name info = ".git") then (log, Some SkipDir) else (log, None)
      else if IsDir info || negb (strings.HasSuffix path ".md") then (log, None)
      else
        match LoadNote open path cfg with
        | Err e => (log, Some e)
        | Ok n => (log ++ [(path, n)], pred log path n)
        end
  end.

Definition noInfo : FileInfo := mkInfo "" false.

Definition noOpen (_ : string) : result Stream := Err (Errno "EISDIR").

(** [walk(path, info, walkFn)] of [path/filepath], with the loop over the
    names of a directory as the inner recursion. *)
Fixpoint walk (log : list (string * Note)) (path : string) (name : string) (n : node)
    : list (string * Note) * option error :=
  match n with
  | Regular opened => walkFn (fun _ => opened) log path (mkInfo name false) None
  | Unreachable e => walkFn noOpen log path noInfo (Some e)
  | Directory listing =>
      let '(log1, err1) :=
        walkFn noOpen log path (mkInfo name true)
               (match listing with Err e => Some e | Ok _ => None end) in
      match listing, err1 with
      | Ok entries, None =>
          (fix names (log : list (string * Note)) (entries : list (string * node))
             : list (string * Note) * option error :=
             match entries with
             | [] => (log, None)
             | (name, child) :: entries' =>
                 let filename := filepath.Join [path; name] in
                 let '(log2, err) := walk log filename name child in
                 match child, err with
                 | _, None => names log2 entries'
                 | Unreachable _, Some e =>
                     if decide (e = SkipDir) then names log2 entries' else (log2, Some e)
                 | Directory _, Some e =>
                     if decide (e = SkipDir) then names log2 entries' else (log2, Some e)
                 | Regular _, Some e => (log2, Some e)
                 end
             end) log1 entries
      | _, _ => (log1, err1)
      end
  end.

(** [filepath.Walk(root, walkFn)] where [tree] is what lies at [root]. *)
Definition Walk (root : string) (tree : node) : list (string * Note) * option error :=
  let '(log, err) := walk [] root (filepath.Base root) tree in
  (log, if decide (err = Some SkipDir) then None else err).

(** [WalkNotes(path, cfg, pred)]: the calls of the visitor, in order, and
    the error returned. *)
Definition WalkNotes (path : string) (tree : node) : list (string * Note) * option error :=
  let '(log, err) := Walk path tree in
  (log, wrap err "Error while traversing notes. If you're finding notes of specific category, directory for it may not exist").

End WithCanonPath.

(** The rule for tags in the words of the specification: split on commas,
    trim every piece, drop the empty ones. *)
Definition parseTags (raw : string) : list string :=
  filter (fun t => t <> "") (strings.TrimSpace <$> strings.Split raw ","%char).

(** [f] applied to the last element of a list. *)
Fixpoint mapLast {A : Type} (f : A -> A) (l : list A) : list A :=
  match l with
  | [] => []
  | [x] => [f x]
  | x :: l' => x :: mapLast f l'
  end.

(** A path element that [Clean] keeps as it is. *)
Definition normalElem (e : string) : Prop :=
  e <> "" /\ e <> "." /\ e <> ".." /\ Str.mem "/"%char e = false.

(** The stacks [Clean] builds: ordinary elements on top of the [..] a
    relative path starts with. *)
Definition cleaned (rooted : bool) (st : list string) : Prop :=
  exists (ns : list string) (k : nat),
    st = ns ++ replicate k ".." /\ Forall normalElem ns /\ (rooted = true -> k = 0%nat).

(** The path [Clean] assembles from the elements it kept. *)
Definition assemble (rooted : bool) (st : list string) : string :=
  let out := strings.Join (rev st) "/" in
  if rooted then "/" +:+ out
  else if decide (out = "") then "." else out.

(** The token the scanner makes of a complete line. *)
Definition token (l : string) : string := bufio.dropCR (bufio.chomp l).

(** The state of the scan loop of [LoadNote] behind the complete lines
    [pre], when it gets through all of them: none is too long for the
    scanner, none makes the loop return or break. *)
Fixpoint scanPrefix (path : string) (note : Note) (titleFound : bool)
    (pre : list string) : option (Note * bool) :=
  match pre with
  | [] => Some (note, titleFound)
  | l :: pre' =>
      if bufio.MaxScanTokenSize <? Str.len l then None
      else
        match scanLine path note titleFound (token l) with
        | Continue note titleFound => scanPrefix path note titleFound pre'
        | _ => None
        end
  end.

(** The title [LoadNote] keeps when it meets the title bar behind the lines
    [before]: the last of them, or the sentinel when there is none or it is
    empty. *)
Definition titleBefore (before : list string) : string :=
  match last before with
  | Some t => if decide (t = "") then "(no title)" else t
  | None => "(no title)"
  end.

(** All three markers occur among [lines]. *)
Definition markersSeen (lines : list string) : bool :=
  sawAll (fold_left observe lines (false, false, false)).

(** Everything the metadata loop of [ReadBodyN] can read from [r]: the
    complete lines and what is left behind them. *)
Definition allReads (r : bufio.Reader) : list string :=
  bufio.pending r ++ [bufio.rest r].

(** The first condition of failure as the specification words it: the
    metadata loop reaches the end of the stream before all three markers
    have been observed. *)
Definition reachesEOFBeforeMarkers (r : bufio.Reader) : Prop :=
  bufio.stop r = EOF /\ markersSeen (allReads r) = false.

(** The second condition as the specification words it: behind the metadata
    block a read fails with something other than the end of the stream. *)
Definition readFailureAfterMetadata (rel : string) (r : bufio.Reader) (maxBytes : Z) : Prop :=
  bufio.stop r <> EOF /\
  exists r1,
    skipMetadata rel (false, false, false) (bufio.pending r) (bufio.rest r) (bufio.stop r) = Ok r1
    /\ let '(buf, r2) := skipEmpty (bufio.pending r1) (bufio.rest r1) (bufio.stop r1) in
       (* the loop over empty lines, or the copy behind it, reads past the data *)
       Forall (fun b => Str.len b <= 1) (bufio.pending r1) \/
       (Str.len buf <= maxBytes /\ Str.len (bufio.unread r2) < maxBytes - Str.len buf).

(** The failure that [ReadBodyN] does report behind the metadata block: the
    first line it keeps fits the budget, and the copy of the remaining
    budget runs into a read failure. *)
Definition copyMeetsFailure (rel : string) (r : bufio.Reader) (maxBytes : Z) : Prop :=
  bufio.stop r <> EOF /\
  exists r1,
    skipMetadata rel (false, false, false) (bufio.pending r) (bufio.rest r) (bufio.stop r) = Ok r1
    /\ let '(buf, r2) := skipEmpty (bufio.pending r1) (bufio.rest r1) (bufio.stop r1) in
       Str.len buf <= maxBytes /\ Str.len (bufio.unread r2) < maxBytes - Str.len buf.

(** [ReadBodyN] returns an error. *)
Definition fails (o : option (result string)) : Prop :=
  exists e, o = Some (Err e).

(** Where the files of a tree lie, as the walk names them:
    [located path name n dirs p fname opened] says that in [n], met at
    [path] under the name [name], the file named [fname] lies at the path
    [p], below the directories named [dirs] (innermost first; [n] itself is
    the outermost of them when it is a directory). *)
Inductive located : string -> string -> node -> list string -> string -> string
                    -> result Stream -> Prop :=
| located_here (path name : string) (opened : result Stream) :
    located path name (Regular opened) [] path name opened
| located_below (path name : string) (entries : list (string * node))
    (nm : string) (child : node) (dirs : list string) (p fname : string)
    (opened : result Stream) :
    (nm, child) ∈ entries ->
    located (filepath.Join [path; nm]) nm child dirs p fname opened ->
    located path name (Directory (Ok entries)) (dirs ++ [name]) p fname opened.

(** The names in a directory listing are single path elements other than
    [.] and [..]. *)
#[warnings="-register-all"]
Inductive listed : node -> Prop :=
| listed_regular (opened : result Stream) : listed (Regular opened)
| listed_unreachable (e : error) : listed (Unreachable e)
| listed_unread (e : error) : listed (Directory (Err e))
| listed_directory (entries : list (string * node)) :
    Forall (fun x => normalElem x.1 /\ listed x.2) entries ->
    listed (Directory (Ok entries)).

(** The loop of [walk] over the names of the directory at [path]. *)
Fixpoint walkNames (canonPath : string -> string) (cfg : Config)
    (pred : list (string * Note) -> string -> Note -> option error)
    (path : string) (log : list (string * Note)) (entries : list (string * node))
    : list (string * Note) * option error :=
  match entries with
  | [] => (log, None)
  | (name, child) :: entries' =>
      let filename := filepath.Join [path; name] in
      let '(log2, err) := walk canonPath cfg pred log filename name child in
      match child, err with
      | _, None => walkNames canonPath cfg pred path log2 entries'
      | Unreachable _, Some e =>
          if decide (e = SkipDir) then walkNames canonPath cfg pred path log2 entries'
          else (log2, Some e)
      | Directory _, Some e =>
          if decide (e = SkipDir) then walkNames canonPath cfg pred path log2 entries'
          else (log2, Some e)
      | Regular _, Some e => (log2, Some e)
      end
  end.

(** [t] at the precision of RFC 3339 without a fraction: whole seconds. *)
Definition atSecond (t : time.Time) : time.Time :=
  time.mkTime (time.year t) (time.month t) (time.day t)
              (time.hour t) (time.minute t) (time.second t) 0 (time.offset t).

(** The clock readings that RFC 3339 text carries without loss: a year of
    four digits and a zone offset of whole minutes within a day. *)
Definition printable (t : time.Time) : Prop :=
  time.valid t = true
  /\ 0 <= time.year t <= 9999
  /\ Z.rem (time.offset t) 60 = 0
  /\ -86400 < time.offset t < 86400.

(** The scanner of [LoadNote] delivers [line] as its next token behind the
    complete lines [pre] of the stream [s]: a line ended by a line feed
    that fits the scanner's buffer, without its line ending, or the
    unterminated last line of the stream. *)
Definition delivered (s : string) (pre : list string) (line : string) : Prop :=
  (exists (l : string) (later : list string) (tl : string),
      bufio.cut s = (pre ++ l :: later, tl)
      /\ Str.len l <= bufio.MaxScanTokenSize /\ line = token l)
  \/ (exists tl : string,
        bufio.cut s = (pre, tl)
        /\ tl <> "" /\ Str.len tl < bufio.MaxScanTokenSize /\ line = bufio.dropCR tl).

(** The UTF-8 text of U+00A0 (no-break space), of U+3000 (ideographic
    space) and of U+0085 (next line). *)
Definition nbsp : string := String "194" (String "160" "").
Definition ideographicSpace : string := String "227" (String "128" (String "128" "")).
Definition nextLine : string := String "194" (String "133" "").

(** A byte of printable ASCII other than the space. *)
Definition plainByte (c : ascii) : bool :=
  ((0x21 <=? Str.byte c) && (Str.byte c <=? 0x7E))%N.

(** A tag as [NewNote] and [LoadNote] store it: not empty, trimmed and
    without a comma. *)
Definition tagOK (t : string) : Prop :=
  t <> "" /\ strings.TrimSpace t = t /\ Str.mem ","%char t = false.
(** A text that [Create] writes on a line of its own and that the scanner
    of [LoadNote] gives back as it is: it has no line feed, does not end in
    a carriage return and fits, with its line feed, the scanner's buffer. *)
Definition oneLine (s : string) : Prop :=
  Str.mem Str.LF s = false /\ Str.last s <> Some Str.CR
  /\ Str.len s < bufio.MaxScanTokenSize.
(** The round trip as the specification words it: the note [n], written by
    [Create] on the file system [fs], loads back from its path with its
    category, its tags, its creation time at whole seconds and the title
    [Create] wrote. *)
Definition roundTrip (canonPath : string -> string) (n : Note) (fs : os.FS) : Prop :=
  forall fs' : os.FS,
    Create n fs = (fs', None) ->
    exists n' : Note,
      LoadNote canonPath (os.Open fs') (FilePath n) (Cfg n) = Ok n'
      /\ Category n' = Category n /\ Tags n' = Tags n
      /\ Created n' = atSecond (Created n) /\ Title n' = titleOf n.
(** * Examples *)

Example Format_ex :
  time.Format (time.mkTime 2018 11 3 9 5 0 123 32400) = "2018-11-03T09:05:00+09:00" /\
  time.Format (time.mkTime 2018 11 3 9 5 0 0 0) = "2018-11-03T09:05:00Z" /\
  time.Format (time.mkTime 2018 11 3 9 5 0 0 (-12600)) = "2018-11-03T09:05:00-03:30".
Proof. repeat split; reflexivity. Qed.

Example Parse_ex :
  time.Parse "2018-11-03T09:05:00+09:00" = Some (time.mkTime 2018 11 3 9 5 0 0 32400) /\
  time.Parse "2018-11-03T09:05:00.25Z" = Some (time.mkTime 2018 11 3 9 5 0 250000000 0) /\
  time.Parse "2018-11-03T9:05:00Z" = Some (time.mkTime 2018 11 3 9 5 0 0 0) /\
  time.Parse "2018-11-03T09:05:00+24:00" = Some (time.mkTime 2018 11 3 9 5 0 0 86400) /\
  time.Parse "2018-11-03T09:05:00-24:60" = Some (time.mkTime 2018 11 3 9 5 0 0 (-90000)) /\
  time.Parse "2018-11-03T09:05:00+25:00" = None /\
  time.Parse "2018-11-03T09:05:00+0900" = None /\
  time.Parse "2018-11-3T09:05:00Z" = None /\
  time.Parse "2018-11-03T09:5:00Z" = None /\
  time.Parse "2018-11-03T24:05:00Z" = None /\
  time.Parse "2018-11-03T09:05:00Zx" = None /\
  time.Parse "2018-02-30T09:05:00Z" = None /\
  time.Parse "2018-11-03 09:05:00Z" = None /\
  time.IsZero (time.mkTime 0 12 31 23 0 0 0 (-3600)) = true.
Proof. repeat split; reflexivity. Qed.

Example TrimSpace_ex :
  strings.TrimSpace (" " +:+ nbsp +:+ "a b" +:+ ideographicSpace +:+ String "009" "") = "a b" /\
  strings.TrimSpace ("blog" +:+ nbsp) = "blog" /\
  strings.TrimSpace (nextLine +:+ "x" +:+ nextLine) = "x" /\
  strings.TrimSpace (nbsp +:+ ideographicSpace) = "" /\
  strings.TrimSpace (String "160" " x ") = String "160" " x" /\
  strings.TrimSpace (String "226" (String "128" " ")) = String "226" (String "128" "") /\
  strings.TrimSpace (String "226" (String "128" (String "139" "")))
    = String "226" (String "128" (String "139" "")) /\
  strings.TrimSpace ("a" +:+ String "160" "") = "a" +:+ String "160" "".
Proof. repeat split; reflexivity. Qed.

Example filepath_ex :
  filepath.Clean "a//b/./c/.." = "a/b" /\ filepath.Clean "/../a" = "/a" /\
  filepath.Clean "../../a/" = "../../a" /\ filepath.Clean "a/.." = "." /\
  filepath.Join ["/home/u/notes"; "cat"; "f.md"] = "/home/u/notes/cat/f.md" /\
  filepath.Join [""; "cat"; "../x.md"] = "x.md" /\
  filepath.Dir "/home/u/notes/cat/f.md" = "/home/u/notes/cat" /\
  filepath.Dir "f.md" = "." /\ filepath.Dir "/f.md" = "/" /\
  filepath.Base "/home/u/notes/cat" = "cat" /\ filepath.Base "a/b//" = "b" /\
  filepath.Base "" = "." /\ filepath.Base "//" = "/" /\
  filepath.Ext "a.b/c.d.md" = ".md" /\ filepath.Ext "a.b/c" = "" /\
  filepath.Ext ".md" = ".md".
Proof. repeat split; reflexivity. Qed.

Example MkdirAll_ex :
  os.MkdirAll "/home/u/notes/cat" (os.mkFS ∅ {["/home"]}) =
    (os.mkFS ∅ ({["/home/u/notes/cat"]} ∪ ({["/home/u/notes"]} ∪ ({["/home/u"]} ∪ {["/home"]}))), None) /\
  (os.MkdirAll "a/b" (os.mkFS {["a" := mkStream "x" None]} ∅)).2 = Some (Errno "ENOTDIR").
Proof. split; vm_compute; reflexivity. Qed.

Example NewNote_ex :
  NewNote (time.mkTime 2018 11 3 9 5 0 0 32400) "blog" " foo,bar ,  " "my post" "" (mkConfig "/n" "") =
  Ok (mkNote (mkConfig "/n" "") "blog" (Some ["foo"; "bar"]) (time.mkTime 2018 11 3 9 5 0 0 32400) "my-post.md" "").
Proof. reflexivity. Qed.

Example Create_ex :
  (Create (mkNote (mkConfig "/n" "") "blog" (Some ["foo"; "bar"]) (time.mkTime 2018 11 3 9 5 0 0 32400) "my-post.md" "")
          (os.mkFS ∅ ∅)).1 =
  os.mkFS {[ "/n/blog/my-post.md" := mkStream "my-post
=======
- Category: blog
- Tags: foo, bar
- Created: 2018-11-03T09:05:00+09:00

" None ]} ({["/n/blog"]} ∪ ({["/n"]} ∪ ∅)).
Proof. vm_compute. reflexivity. Qed.

Example LoadNote_ex :
  LoadNote id (os.Open (os.mkFS {[ "/n/blog/my-post.md" := mkStream "my-post
=======
- Category: blog
- Tags: foo, bar
- Created: 2018-11-03T09:05:00+09:00

body" None ]} ∅)) "/n/blog/my-post.md" (mkConfig "/n" "") =
  Ok (mkNote (mkConfig "/n" "") "blog" (Some ["foo"; "bar"]) (time.mkTime 2018 11 3 9 5 0 0 32400) "my-post.md" "my-post").
Proof. vm_compute. reflexivity. Qed.

Example LoadNote_nbsp_ex :
  LoadNote id (os.Open (os.mkFS {[ "/n/blog/p.md" := mkStream ("T
=
- Category: blog" +:+ nbsp +:+ "
- Tags: a," +:+ ideographicSpace +:+ ",b
- Created: 2018-11-03T9:05:00Z
") None ]} ∅)) "/n/blog/p.md" (mkConfig "/n" "") =
  Ok (mkNote (mkConfig "/n" "") "blog" (Some ["a"; "b"]) (time.mkTime 2018 11 3 9 5 0 0 0) "p.md" "T").
Proof. vm_compute. reflexivity. Qed.

Example ReadBodyN_ex :
  readBody "blog/p.md" (bufio.NewReader (mkStream "t
=
- Category: blog
- Tags: foo, bar
- Created: 2018-11-03T09:05:00+09:00


first line
second line
" None)) 15 = Some (Ok "first line
seco").
Proof. vm_compute. reflexivity. Qed.

(** * Properties *)

(** ** Byte strings *)

Lemma app_cons (c : ascii) (a b : string) : String c a +:+ b = String c (a +:+ b).
Proof. reflexivity. Qed.

Lemma app_nil_l (s : string) : "" +:+ s = s.
Proof. reflexivity. Qed.

(** [String.append] does not unfold under [simpl]; its equations are used
    as rewrite rules. *)
Ltac sapp := repeat (rewrite ?app_cons, ?app_nil_l in *; simpl in * ).

Lemma app_nil_r (s : string) : s +:+ "" = s.
Proof. induction s as [|c s IH]; sapp; [done | by rewrite IH]. Qed.

Lemma app_assoc (a b c : string) : (a +:+ b) +:+ c = a +:+ (b +:+ c).
Proof. induction a as [|x a IH]; sapp; [done | by rewrite IH]. Qed.

Lemma app_length (a b : string) :
  String.length (a +:+ b) = (String.length a + String.length b)%nat.
Proof. induction a as [|x a IH]; sapp; [done | by rewrite IH]. Qed.

Lemma take_app_length (a b : string) : Str.take (String.length a) (a +:+ b) = a.
Proof. induction a as [|x a IH]; sapp; [by destruct b | by rewrite IH]. Qed.

Lemma drop_app_length (a b : string) : Str.drop (String.length a) (a +:+ b) = b.
Proof. induction a as [|x a IH]; sapp; [by destruct b | done]. Qed.

Lemma take_length_le (n : nat) (s : string) : (String.length (Str.take n s) <= n)%nat.
Proof.
  revert s; induction n as [|n IH]; intros [|c s]; simpl; try lia.
  specialize (IH s); lia.
Qed.

Lemma take_all (n : nat) (s : string) : (String.length s <= n)%nat -> Str.take n s = s.
Proof.
  revert s; induction n as [|n IH]; intros [|c s]; simpl; intros; try done; try lia.
  rewrite IH; [done | lia].
Qed.

Lemma take_length (n : nat) (s : string) :
  (n <= String.length s)%nat -> String.length (Str.take n s) = n.
Proof.
  revert s; induction n as [|n IH]; intros [|c s]; simpl; intros; try done; try lia.
  rewrite IH; [done | lia].
Qed.

Lemma take_take_app (n : nat) (a b : string) :
  (n <= String.length a)%nat -> Str.take n (a +:+ b) = Str.take n a.
Proof.
  revert a; induction n as [|n IH]; intros [|c a]; sapp; intros; try done; try lia.
  rewrite IH; [done | lia].
Qed.

Lemma prefix_app (p s : string) : String.prefix p (p +:+ s) = true.
Proof.
  induction p as [|c p IH]; sapp; [by destruct s |].
  destruct (ascii_dec c c); [done | congruence].
Qed.

Lemma prefix_inv (p s : string) :
  String.prefix p s = true -> s = p +:+ Str.drop (String.length p) s.
Proof.
  revert s; induction p as [|c p IH]; intros s H.
  - by destruct s.
  - destruct s as [|a s]; [done |]. simpl in H.
    destruct (ascii_dec c a) as [->|]; [|done].
    rewrite app_cons. simpl. f_equal. by apply IH.
Qed.

(** ** White space and tags *)

Lemma trimRightBy_nil_iff (p : ascii -> bool) (s : string) :
  Str.trimRightBy p s = "" <-> Str.all p s = true.
Proof.
  induction s as [|c s IH]; simpl; [done |].
  destruct (Str.trimRightBy p s) eqn:E.
  - destruct (p c); simpl; [tauto | split; [done | intros; discriminate]].
  - split; [done |]. rewrite andb_true_iff. intros [_ H]. apply IH in H. done.
Qed.

Lemma trimRightBy_cons (p : ascii -> bool) (c : ascii) (s : string) :
  Str.trimRightBy p (String c s) =
  if p c && Str.all p s then "" else String c (Str.trimRightBy p s).
Proof.
  simpl. destruct (Str.trimRightBy p s) eqn:E.
  - apply trimRightBy_nil_iff in E. rewrite E, andb_true_r. by destruct (p c).
  - destruct (Str.all p s) eqn:A.
    + apply trimRightBy_nil_iff in A. congruence.
    + by rewrite andb_false_r.
Qed.

Lemma trimRightBy_idem (p : ascii -> bool) (s : string) :
  Str.trimRightBy p (Str.trimRightBy p s) = Str.trimRightBy p s.
Proof.
  induction s as [|c s IH]; [done |].
  rewrite trimRightBy_cons. destruct (p c && Str.all p s) eqn:E; [done |].
  rewrite trimRightBy_cons, IH.
  destruct (Str.all p (Str.trimRightBy p s)) eqn:A; [| by rewrite andb_false_r].
  apply trimRightBy_nil_iff in A. rewrite IH in A.
  apply trimRightBy_nil_iff in A. rewrite A in E. by rewrite E.
Qed.

(** ** Runes at the head and at the end of a string *)

Lemma Str_rev_app (a b : string) : Str.rev (a +:+ b) = Str.rev b +:+ Str.rev a.
Proof.
  induction a as [|c a IH]; [by rewrite app_nil_l, app_nil_r |].
  rewrite app_cons. cbn [Str.rev]. by rewrite IH, app_assoc.
Qed.

Lemma Str_rev_rev (s : string) : Str.rev (Str.rev s) = s.
Proof.
  induction s as [|c s IH]; [done |].
  cbn [Str.rev]. by rewrite Str_rev_app, IH.
Qed.

Lemma Str_rev_nil (s : string) : Str.rev s = "" -> s = "".
Proof. intros H. by rewrite <- (Str_rev_rev s), H. Qed.

Section Runes.

Variable p1 : ascii -> bool.
Variable p2 : ascii -> ascii -> bool.
Variable p3 : ascii -> ascii -> ascii -> bool.

Lemma trimRunes_unfold (s : string) :
  Str.trimRunes p1 p2 p3 s =
  match Str.headRune p1 p2 p3 s with
  | Some r => Str.trimRunes p1 p2 p3 r
  | None => s
  end.
Proof.
  destruct s as [|c1 [|c2 [|c3 s]]]; simpl; try done.
  - by destruct (p1 c1).
  - destruct (p1 c1); [done |]. by destruct (p2 c1 c2).
  - destruct (p1 c1); [done |]. destruct (p2 c1 c2); [done |]. by destruct (p3 c1 c2 c3).
Qed.

Lemma headRune_length (s r : string) :
  Str.headRune p1 p2 p3 s = Some r -> (String.length r < String.length s)%nat.
Proof.
  destruct s as [|c1 [|c2 [|c3 s]]]; simpl; try done.
  - destruct (p1 c1); [|done]. intros [= <-]. simpl. lia.
  - destruct (p1 c1); [intros [= <-]; simpl; lia |].
    destruct (p2 c1 c2); [|done]. intros [= <-]. simpl. lia.
  - destruct (p1 c1); [intros [= <-]; simpl; lia |].
    destruct (p2 c1 c2); [intros [= <-]; simpl; lia |].
    destruct (p3 c1 c2 c3); [|done]. intros [= <-]. simpl. lia.
Qed.

Lemma headRune_app (s r b : string) :
  Str.headRune p1 p2 p3 s = Some r ->
  Str.headRune p1 p2 p3 (s +:+ b) = Some (r +:+ b).
Proof.
  destruct s as [|c1 [|c2 [|c3 s]]]; rewrite ?app_cons, ?app_nil_l; simpl; try done.
  - destruct (p1 c1) eqn:E; [|done]. intros [= <-].
    by rewrite app_nil_l.
  - destruct (p1 c1); [by intros [= <-] |].
    destruct (p2 c1 c2) eqn:E; [|done]. intros [= <-].
    rewrite app_nil_l. done.
  - destruct (p1 c1); [by intros [= <-] |].
    destruct (p2 c1 c2); [by intros [= <-] |].
    destruct (p3 c1 c2 c3); [|done]. by intros [= <-].
Qed.

Lemma runs_app (a b : string) : runs p1 p2 p3 a -> runs p1 p2 p3 b -> runs p1 p2 p3 (a +:+ b).
Proof.
  intros Ha Hb. induction Ha; rewrite ?app_nil_l, ?app_cons;
    [done | by apply runs_1 | by apply runs_2 | by apply runs_3].
Qed.

Lemma headRune_runs (s r : string) :
  Str.headRune p1 p2 p3 s = Some r -> runs p1 p2 p3 r -> runs p1 p2 p3 s.
Proof.
  destruct s as [|c1 [|c2 [|c3 s]]]; simpl; try done.
  - destruct (p1 c1) eqn:E1; [|done]. intros [= <-] H. by apply runs_1.
  - destruct (p1 c1) eqn:E1; [intros [= <-] H; by apply runs_1 |].
    destruct (p2 c1 c2) eqn:E2; [|done]. intros [= <-] H. by apply runs_2.
  - destruct (p1 c1) eqn:E1; [intros [= <-] H; by apply runs_1 |].
    destruct (p2 c1 c2) eqn:E2; [intros [= <-] H; by apply runs_2 |].
    destruct (p3 c1 c2 c3) eqn:E3; [|done]. intros [= <-] H. by apply runs_3.
Qed.

Lemma trimRunes_nil_runs (s : string) : Str.trimRunes p1 p2 p3 s = "" -> runs p1 p2 p3 s.
Proof.
  remember (String.length s) as n eqn:Hn. revert s Hn.
  induction (lt_wf n) as [n _ IH]. intros s -> H.
  rewrite trimRunes_unfold in H.
  destruct (Str.headRune p1 p2 p3 s) as [r|] eqn:E.
  - apply (headRune_runs _ _ E).
    apply (IH (String.length r)); [by apply headRune_length | done | done].
  - subst s. constructor.
Qed.

(** Appending one byte to [x]: either all becomes runes, or what was left of
    [x] stays, with the byte behind it. *)
Lemma trimRunes_snoc (x : string) (c : ascii) :
  Str.trimRunes p1 p2 p3 (x +:+ String c "") = ""
  \/ Str.trimRunes p1 p2 p3 (x +:+ String c "")
     = Str.trimRunes p1 p2 p3 x +:+ String c "".
Proof.
  remember (String.length x) as n eqn:Hn. revert x Hn.
  induction (lt_wf n) as [n _ IH]. intros x ->.
  destruct x as [|c1 x1].
  { rewrite app_nil_l. simpl. destruct (p1 c); [by left | by right]. }
  rewrite app_cons.
  destruct (p1 c1) eqn:E1.
  { cbn [Str.trimRunes]. rewrite E1.
    apply (IH (String.length x1)); [simpl; lia | done]. }
  destruct x1 as [|c2 x2].
  { rewrite app_nil_l. simpl. rewrite E1. destruct (p2 c1 c); [by left | by right]. }
  rewrite app_cons.
  destruct (p2 c1 c2) eqn:E2.
  { cbn [Str.trimRunes]. rewrite E1, E2.
    apply (IH (String.length x2)); [simpl; lia | done]. }
  destruct x2 as [|c3 x3].
  { rewrite app_nil_l. simpl. rewrite E1, E2. destruct (p3 c1 c2 c); [by left | by right]. }
  rewrite app_cons.
  cbn [Str.trimRunes]. rewrite E1, E2.
  destruct (p3 c1 c2 c3) eqn:E3.
  { apply (IH (String.length x3)); [simpl; lia | done]. }
  right. by rewrite !app_cons.
Qed.

(** No rune is the head of another one. *)
Hypothesis p2_p1 : forall c1 c2, p2 c1 c2 = true -> p1 c1 = false.
Hypothesis p3_p1 : forall c1 c2 c3, p3 c1 c2 c3 = true -> p1 c1 = false.
Hypothesis p3_p2 : forall c1 c2 c3, p3 c1 c2 c3 = true -> p2 c1 c2 = false.

Lemma runs_trimRunes_app (a b : string) :
  runs p1 p2 p3 a -> Str.trimRunes p1 p2 p3 (a +:+ b) = Str.trimRunes p1 p2 p3 b.
Proof.
  induction 1 as [|c s H _ IH|c1 c2 s H _ IH|c1 c2 c3 s H _ IH];
    rewrite ?app_nil_l, ?app_cons; [done | | |]; cbn [Str.trimRunes].
  - by rewrite H.
  - by rewrite (p2_p1 _ _ H), H.
  - by rewrite (p3_p1 _ _ _ H), (p3_p2 _ _ _ H), H.
Qed.

Lemma runs_trimRunes_nil (s : string) : runs p1 p2 p3 s -> Str.trimRunes p1 p2 p3 s = "".
Proof. intros H. rewrite <- (app_nil_r s). by rewrite runs_trimRunes_app. Qed.

End Runes.

Lemma runs_rev p1 p2 p3 (s : string) :
  runs p1 p2 p3 s ->
  runs p1 (fun c1 c2 => p2 c2 c1) (fun c1 c2 c3 => p3 c3 c2 c1) (Str.rev s).
Proof.
  induction 1 as [|c s H _ IH|c1 c2 s H _ IH|c1 c2 c3 s H _ IH]; cbn [Str.rev].
  - constructor.
  - apply runs_app; [done |]. apply runs_1; [done | constructor].
  - rewrite app_assoc. apply runs_app; [done |]. apply runs_2; [done | constructor].
  - rewrite !app_assoc. apply runs_app; [done |]. apply runs_3; [done | constructor].
Qed.

(** ** White space *)

Ltac bytes :=
  unfold strings.asciiSpace, strings.space2, strings.space3, continuation in *;
  cbv zeta in *;
  repeat match goal with
         | H : _ && _ = true |- _ => apply andb_true_iff in H as [? ?]
         | H : _ || _ = true |- _ => apply orb_true_iff in H as [?|?]
         | H : (_ =? _)%N = true |- _ => apply N.eqb_eq in H
         | H : (_ <=? _)%N = true |- _ => apply N.leb_le in H
         | H : _ = false |- _ => apply not_true_iff_false in H
         | |- _ = false => apply not_true_iff_false; intros ?
         | |- _ /\ _ => split
         end;
  try (exfalso; lia); try lia.

Lemma space2_ascii c1 c2 : strings.space2 c1 c2 = true -> strings.asciiSpace c1 = false.
Proof. intros H. bytes. Qed.

Lemma space3_ascii c1 c2 c3 : strings.space3 c1 c2 c3 = true -> strings.asciiSpace c1 = false.
Proof. intros H. bytes. Qed.

Lemma space3_space2 c1 c2 c3 : strings.space3 c1 c2 c3 = true -> strings.space2 c1 c2 = false.
Proof. intros H. bytes. Qed.

Lemma space2_ascii_last c1 c2 : strings.space2 c2 c1 = true -> strings.asciiSpace c1 = false.
Proof. intros H. bytes. Qed.

Lemma space3_ascii_last c1 c2 c3 :
  strings.space3 c3 c2 c1 = true -> strings.asciiSpace c1 = false.
Proof. intros H. bytes. Qed.

Lemma space3_space2_last c1 c2 c3 :
  strings.space3 c3 c2 c1 = true -> strings.space2 c2 c1 = false.
Proof. intros H. bytes. Qed.

Lemma space2_continuation c1 c2 : strings.space2 c1 c2 = true -> continuation c2 = true.
Proof.
  intros H. unfold continuation. bytes; apply andb_true_iff; split; apply N.leb_le; lia.
Qed.

Lemma space3_continuation c1 c2 c3 :
  strings.space3 c1 c2 c3 = true -> continuation c2 = true /\ continuation c3 = true.
Proof.
  intros H. unfold continuation. bytes; apply andb_true_iff; split; apply N.leb_le; lia.
Qed.

Lemma continuation_spaceRune (c : ascii) (s : string) :
  continuation c = true -> strings.spaceRune (String c s) = None.
Proof.
  intros H. unfold strings.spaceRune. simpl.
  assert (strings.asciiSpace c = false) as -> by bytes.
  destruct s as [|c2 s]; [done |].
  assert (strings.space2 c c2 = false) as -> by bytes.
  destruct s as [|c3 s]; [done |].
  assert (strings.space3 c c2 c3 = false) as -> by bytes. done.
Qed.

Lemma TrimLeft_unfold (s : string) :
  strings.TrimLeft s =
  match strings.spaceRune s with
  | Some r => strings.TrimLeft r
  | None => s
  end.
Proof. apply trimRunes_unfold. Qed.

Lemma TrimLeft_spaceRune (s : string) : strings.spaceRune (strings.TrimLeft s) = None.
Proof.
  remember (String.length s) as n eqn:Hn. revert s Hn.
  induction (lt_wf n) as [n _ IH]. intros s ->.
  rewrite TrimLeft_unfold.
  destruct (strings.spaceRune s) as [r|] eqn:E; [| done].
  apply (IH (String.length r)); [by apply headRune_length in E | done].
Qed.

Lemma TrimLeft_idem (s : string) :
  strings.TrimLeft (strings.TrimLeft s) = strings.TrimLeft s.
Proof. rewrite (TrimLeft_unfold (strings.TrimLeft s)). by rewrite TrimLeft_spaceRune. Qed.

Lemma blank_spaces (s : string) : strings.blank s = true <-> spaces s.
Proof.
  unfold strings.blank. rewrite bool_decide_eq_true. split.
  - apply trimRunes_nil_runs.
  - apply runs_trimRunes_nil;
      [apply space2_ascii | apply space3_ascii | apply space3_space2].
Qed.

Lemma spaces_TrimLeft_app (a b : string) :
  spaces a -> strings.TrimLeft (a +:+ b) = strings.TrimLeft b.
Proof.
  apply runs_trimRunes_app;
    [apply space2_ascii | apply space3_ascii | apply space3_space2].
Qed.

(** Read from its end, [s] is white space throughout exactly when it is so
    read from its head. *)
Lemma TrimRight_nil_iff (s : string) : strings.TrimRight s = "" <-> spaces s.
Proof.
  unfold strings.TrimRight. split.
  - intros H. apply Str_rev_nil in H. apply trimRunes_nil_runs in H.
    apply runs_rev in H. by rewrite Str_rev_rev in H.
  - intros H. apply runs_rev in H.
    rewrite runs_trimRunes_nil; [done | | | | done].
    + intros c1 c2. apply space2_ascii_last.
    + intros c1 c2 c3. apply space3_ascii_last.
    + intros c1 c2 c3. apply space3_space2_last.
Qed.

(** [strings.TrimRight] by the bytes of [s] from its head. *)
Lemma TrimRight_cons (c : ascii) (s : string) :
  strings.TrimRight (String c s) =
  if strings.blank (String c s) then "" else String c (strings.TrimRight s).
Proof.
  destruct (strings.blank (String c s)) eqn:E.
  - apply TrimRight_nil_iff. by apply blank_spaces.
  - assert (strings.TrimRight (String c s) <> "") as N.
    { intros H. apply TrimRight_nil_iff, blank_spaces in H. congruence. }
    unfold strings.TrimRight in *. cbn [Str.rev] in *.
    destruct (trimRunes_snoc strings.asciiSpace (fun c1 c2 => strings.space2 c2 c1)
                (fun c1 c2 c3 => strings.space3 c3 c2 c1) (Str.rev s) c) as [H|H].
    + by rewrite H in N.
    + rewrite H, Str_rev_app. done.
Qed.

Lemma TrimRight_nil : strings.TrimRight "" = "".
Proof. done. Qed.

Lemma blank_TrimRight (s : string) : strings.blank s = true -> strings.TrimRight s = "".
Proof. intros H. by apply TrimRight_nil_iff, blank_spaces. Qed.

(** What [strings.TrimRight] cuts off is white space. *)
Lemma TrimRight_split (s : string) :
  exists q, s = strings.TrimRight s +:+ q /\ spaces q.
Proof.
  induction s as [|c s (q & E & H)]; [exists ""; split; [done | constructor] |].
  rewrite TrimRight_cons. destruct (strings.blank (String c s)) eqn:B.
  - exists (String c s). split; [done | by apply blank_spaces].
  - exists q. split; [| done]. rewrite app_cons. by rewrite <- E.
Qed.

Lemma spaces_app (a b : string) : spaces a -> spaces b -> spaces (a +:+ b).
Proof. apply runs_app. Qed.

Lemma TrimRight_idem (s : string) :
  strings.TrimRight (strings.TrimRight s) = strings.TrimRight s.
Proof.
  induction s as [|c s IH]; [done |].
  rewrite TrimRight_cons. destruct (strings.blank (String c s)) eqn:B; [done |].
  rewrite TrimRight_cons, IH.
  destruct (strings.blank (String c (strings.TrimRight s))) eqn:B'; [| done].
  exfalso. apply blank_spaces in B'.
  destruct (TrimRight_split s) as (q & E & H).
  assert (spaces (String c s)) as S.
  { rewrite E, <- app_cons. by apply spaces_app. }
  apply blank_spaces in S. congruence.
Qed.

(** A white-space rune at the head of [s] stays where it is when the end of
    [s] is trimmed, unless all of [s] is white space. *)
Lemma spaceRune_TrimRight (s r : string) :
  strings.spaceRune s = Some r ->
  strings.blank s = false ->
  strings.spaceRune (strings.TrimRight s) = Some (strings.TrimRight r).
Proof.
  unfold strings.spaceRune. intros E B.
  destruct s as [|c1 s1]; [done |]. rewrite TrimRight_cons, B.
  simpl in E |- *. destruct (strings.asciiSpace c1) eqn:E1; [by injection E as -> |].
  destruct s1 as [|c2 s2]; [done |].
  destruct (strings.space2 c1 c2) eqn:E2.
  { injection E as ->. rewrite TrimRight_cons.
    assert (strings.blank (String c2 r) = false) as ->.
    { unfold strings.blank. rewrite TrimLeft_unfold.
      rewrite continuation_spaceRune by (by apply space2_continuation in E2).
      by apply bool_decide_eq_false. }
    by rewrite E2. }
  destruct s2 as [|c3 s3]; [done |].
  destruct (strings.space3 c1 c2 c3) eqn:E3; [| done].
  injection E as ->.
  destruct (space3_continuation _ _ _ E3) as [K2 K3].
  rewrite TrimRight_cons.
  assert (strings.blank (String c2 (String c3 r)) = false) as ->.
  { unfold strings.blank. rewrite TrimLeft_unfold.
    rewrite continuation_spaceRune by done. by apply bool_decide_eq_false. }
  rewrite TrimRight_cons.
  assert (strings.blank (String c3 r) = false) as ->.
  { unfold strings.blank. rewrite TrimLeft_unfold.
    rewrite continuation_spaceRune by done. by apply bool_decide_eq_false. }
  by rewrite E2, E3.
Qed.

Lemma spaceRune_blank (s r : string) :
  strings.spaceRune s = Some r -> strings.blank s = strings.blank r.
Proof.
  intros E. unfold strings.blank. by rewrite (TrimLeft_unfold s), E.
Qed.

Lemma trim_comm (s : string) :
  strings.TrimLeft (strings.TrimRight s) = strings.TrimRight (strings.TrimLeft s).
Proof.
  remember (String.length s) as n eqn:Hn. revert s Hn.
  induction (lt_wf n) as [n _ IH]. intros s ->.
  rewrite (TrimLeft_unfold s).
  destruct (strings.spaceRune s) as [r|] eqn:E.
  - destruct (strings.blank s) eqn:B.
    + rewrite (blank_TrimRight s B).
      rewrite (spaceRune_blank _ _ E) in B. apply bool_decide_eq_true in B.
      by rewrite B.
    + rewrite TrimLeft_unfold, (spaceRune_TrimRight _ _ E B).
      apply (IH (String.length r)); [by apply headRune_length in E | done].
  - rewrite TrimLeft_unfold.
    destruct (strings.spaceRune (strings.TrimRight s)) as [r|] eqn:E'; [| done].
    exfalso. destruct (TrimRight_split s) as (q & Es & _).
    apply (headRune_app _ _ _ _ _ q) in E'. fold (strings.spaceRune (strings.TrimRight s +:+ q)) in E'.
    rewrite <- Es in E'. congruence.
Qed.

Lemma TrimSpace_TrimLeft (s : string) :
  strings.TrimSpace (strings.TrimLeft s) = strings.TrimSpace s.
Proof. unfold strings.TrimSpace. by rewrite TrimLeft_idem. Qed.

Lemma TrimSpace_TrimRight (s : string) :
  strings.TrimSpace (strings.TrimRight s) = strings.TrimSpace s.
Proof. unfold strings.TrimSpace. by rewrite trim_comm, TrimRight_idem. Qed.

Lemma TrimSpace_idem (s : string) :
  strings.TrimSpace (strings.TrimSpace s) = strings.TrimSpace s.
Proof.
  unfold strings.TrimSpace at 2.
  by rewrite TrimSpace_TrimRight, TrimSpace_TrimLeft.
Qed.

Lemma collectTags_from (pieces acc : list string) :
  fold_left appendTag pieces acc =
  acc ++ filter (fun t => t <> "") (strings.TrimSpace <$> pieces).
Proof.
  revert acc; induction pieces as [|p ps IH]; intros acc; simpl.
  - by rewrite List.app_nil_r.
  - rewrite IH. unfold appendTag. rewrite filter_cons.
    destruct (decide (strings.TrimSpace p = "")) as [E|E].
    + rewrite decide_False by tauto. done.
    + rewrite decide_True by done. by rewrite <- List.app_assoc.
Qed.

Lemma collectTags_spec (raw : string) :
  collectTags (strings.Split raw ","%char) = parseTags raw.
Proof. unfold collectTags. by rewrite collectTags_from. Qed.

Lemma Split_not_nil (s : string) (sep : ascii) : strings.Split s sep <> [].
Proof.
  induction s as [|c s IH]; simpl; [done |].
  destruct (decide (c = sep)); [done |].
  by destruct (strings.Split s sep).
Qed.

Lemma Split_cons (c : ascii) (s : string) (sep : ascii) :
  c <> sep ->
  exists h t, strings.Split s sep = h :: t /\ strings.Split (String c s) sep = String c h :: t.
Proof.
  intros Hc. simpl. rewrite decide_False by done.
  destruct (strings.Split s sep) as [|h t] eqn:E; [by apply Split_not_nil in E |].
  eauto.
Qed.

Lemma Split_single (s h : string) (sep : ascii) :
  strings.Split s sep = [h] -> s = h.
Proof.
  revert h; induction s as [|a s IH]; intros h E1; simpl in E1.
  { by injection E1. }
  destruct (decide (a = sep)).
  { injection E1 as _ E1. by apply Split_not_nil in E1. }
  destruct (strings.Split s sep) as [|y [|z l]] eqn:E2; try done.
  - by apply Split_not_nil in E2.
  - injection E1 as <-. f_equal. by apply IH.
Qed.

Lemma Split_head (s h : string) (t : list string) (sep : ascii) :
  strings.Split s sep = h :: t -> exists rest, s = h +:+ rest.
Proof.
  revert h t; induction s as [|c s IH]; intros h t E; simpl in E.
  { injection E as <- <-. by exists "". }
  destruct (decide (c = sep)).
  { injection E as <- <-. by exists (String c s). }
  destruct (strings.Split s sep) as [|h' t'] eqn:E'; [by apply Split_not_nil in E' |].
  injection E as <- <-. destruct (IH h' t' eq_refl) as (rest & ->).
  by exists rest.
Qed.

Lemma Split_cons_eq (c : ascii) (s h : string) (t : list string) (sep : ascii) :
  c <> sep -> strings.Split s sep = h :: t ->
  strings.Split (String c s) sep = String c h :: t.
Proof. intros Hc E. simpl. by rewrite decide_False, E. Qed.

Lemma asciiSpace_comma (c : ascii) : strings.asciiSpace c = true -> c <> ","%char.
Proof. by intros H ->. Qed.

Lemma space2_comma (c1 c2 : ascii) :
  strings.space2 c1 c2 = true -> c1 <> ","%char /\ c2 <> ","%char.
Proof. intros H. split; by intros ->; bytes. Qed.

Lemma space3_comma (c1 c2 c3 : ascii) :
  strings.space3 c1 c2 c3 = true -> c1 <> ","%char /\ c2 <> ","%char /\ c3 <> ","%char.
Proof. intros H. repeat split; by intros ->; bytes. Qed.

(** Trimming on the left of the whole touches the first piece only. *)
Lemma Split_trimLeft (s : string) :
  exists h t, strings.Split s ","%char = h :: t /\
    strings.Split (strings.TrimLeft s) ","%char = strings.TrimLeft h :: t.
Proof.
  remember (String.length s) as n eqn:Hn. revert s Hn.
  induction (lt_wf n) as [n _ IH]. intros s ->.
  rewrite (TrimLeft_unfold s).
  destruct (strings.spaceRune s) as [r|] eqn:E.
  - destruct (IH (String.length r) (headRune_length _ _ _ _ _ E) r eq_refl)
      as (h & t & E1 & E2).
    rewrite E2. unfold strings.spaceRune in E.
    destruct s as [|c1 s1]; [done |]. simpl in E.
    destruct (strings.asciiSpace c1) eqn:A1.
    { injection E as ->. exists (String c1 h), t. split.
      - apply Split_cons_eq; [by apply asciiSpace_comma | done].
      - rewrite (TrimLeft_unfold (String c1 h)). unfold strings.spaceRune. simpl.
        by rewrite A1. }
    destruct s1 as [|c2 s2]; [done |].
    destruct (strings.space2 c1 c2) eqn:A2.
    { injection E as ->. destruct (space2_comma _ _ A2) as [N1 N2].
      exists (String c1 (String c2 h)), t. split.
      - by do 2 (apply Split_cons_eq; [done |]).
      - rewrite (TrimLeft_unfold (String c1 _)). unfold strings.spaceRune. simpl.
        by rewrite A1, A2. }
    destruct s2 as [|c3 s3]; [done |].
    destruct (strings.space3 c1 c2 c3) eqn:A3; [| done].
    injection E as ->. destruct (space3_comma _ _ _ A3) as (N1 & N2 & N3).
    exists (String c1 (String c2 (String c3 h))), t. split.
    + by do 3 (apply Split_cons_eq; [done |]).
    + rewrite (TrimLeft_unfold (String c1 _)). unfold strings.spaceRune. simpl.
      by rewrite A1, A2, A3.
  - destruct (strings.Split s ","%char) as [|h t] eqn:E1;
      [by apply Split_not_nil in E1 |].
    exists h, t. split; [done |].
    rewrite TrimLeft_unfold.
    destruct (strings.spaceRune h) as [r|] eqn:E2; [| done].
    exfalso. destruct (Split_head _ _ _ _ E1) as (rest & ->).
    apply (headRune_app _ _ _ _ _ rest) in E2. unfold strings.spaceRune in E.
    congruence.
Qed.

Lemma spaces_comma (s : string) : spaces s -> Str.mem ","%char s = false.
Proof.
  induction 1 as [|c s H _ IH|c1 c2 s H _ IH|c1 c2 c3 s H _ IH]; [done | | |]; simpl.
  - by rewrite decide_False by (by apply asciiSpace_comma).
  - destruct (space2_comma _ _ H). by rewrite !decide_False.
  - destruct (space3_comma _ _ _ H) as (? & ? & ?). by rewrite !decide_False.
Qed.

Lemma Split_nosep (s : string) (sep : ascii) :
  Str.mem sep s = false -> strings.Split s sep = [s].
Proof.
  induction s as [|c s IH]; [done |]. simpl.
  destruct (decide (c = sep)); [done |]. intros H. by rewrite IH.
Qed.

(** Trimming on the right of the whole touches the last piece only. *)
Lemma Split_trimRight (s : string) :
  strings.Split (strings.TrimRight s) ","%char =
  mapLast strings.TrimRight (strings.Split s ","%char).
Proof.
  induction s as [|c s IH]; [done |].
  rewrite TrimRight_cons.
  destruct (strings.blank (String c s)) eqn:B.
  { assert (spaces (String c s)) as S by (by apply blank_spaces).
    rewrite (Split_nosep (String c s)) by (by apply spaces_comma).
    cbn [mapLast]. by rewrite TrimRight_cons, B. }
  destruct (decide (c = ","%char)) as [->|Hc].
  - simpl. rewrite IH.
    destruct (strings.Split s ","%char) eqn:E; [by apply Split_not_nil in E | done].
  - destruct (strings.Split s ","%char) as [|h t] eqn:E1;
      [by apply Split_not_nil in E1 |].
    rewrite (Split_cons_eq c s h t _ Hc E1).
    destruct t as [|x t].
    + cbn [mapLast] in *. apply Split_single in E1 as ->.
      rewrite (Split_cons_eq c _ _ _ _ Hc IH). by rewrite TrimRight_cons, B.
    + change (mapLast strings.TrimRight (String c h :: x :: t))
        with (String c h :: mapLast strings.TrimRight (x :: t)).
      change (mapLast strings.TrimRight (h :: x :: t))
        with (h :: mapLast strings.TrimRight (x :: t)) in IH.
      by apply Split_cons_eq.
Qed.

Lemma map_mapLast {A B : Type} (f : A -> B) (g : A -> A) (l : list A) :
  (forall x, f (g x) = f x) -> f <$> mapLast g l = f <$> l.
Proof.
  intros H. induction l as [|x [|y l] IH]; [done | by simpl; rewrite H |].
  change (mapLast g (x :: y :: l)) with (x :: mapLast g (y :: l)).
  by rewrite !fmap_cons, IH.
Qed.

(** Trimming the whole tags text first, as [LoadNote] does, changes nothing. *)
Lemma parseTags_TrimSpace (raw : string) :
  parseTags (strings.TrimSpace raw) = parseTags raw.
Proof.
  unfold parseTags, strings.TrimSpace.
  fold (strings.TrimLeft raw). fold (strings.TrimRight (strings.TrimLeft raw)).
  rewrite Split_trimRight, (map_mapLast _ _ _ TrimSpace_TrimRight).
  destruct (Split_trimLeft raw) as (h & t & -> & ->).
  by rewrite !fmap_cons, TrimSpace_TrimLeft.
Qed.

(** C6: [NewNote] splits the raw tags on commas, trims every piece and
    drops the empty ones, keeping the order of the rest, and always stores a
    non-nil sequence; ["a, , b ,"] gives [["a"; "b"]] and the empty text the
    empty sequence; [LoadNote] applies the same rule to what follows
    [- Tags:].  Trimming is [strings.TrimSpace], which takes off Unicode
    white space: a piece that is a no-break space or an ideographic space
    is dropped as well. *)
Theorem C6_tags_rule :
  forall (now : time.Time) (cat tags file title : string) (cfg : Config),
    match NewNote now cat tags file title cfg with
    | Ok n => Tags n = Some (parseTags tags)
    | Err _ => cat = "" \/ file = ""
    end
    /\ parseTags tags `sublist_of` (strings.TrimSpace <$> strings.Split tags ","%char)
    /\ parseTags "a, , b ," = ["a"; "b"]
    /\ parseTags "" = []
    /\ parseTags ("a," +:+ nbsp +:+ ", " +:+ ideographicSpace +:+ "b" +:+ nbsp) = ["a"; "b"]
    /\ forall (path : string) (note : Note) (line : string),
         strings.HasPrefix line "- Category: " = false ->
         strings.HasPrefix line "- Tags:" = true ->
         scanLine path note true line
         = next (withTags note (parseTags (Str.drop 7 line))) true.
Proof.
  intros now cat tags file title cfg. repeat split.
  - unfold NewNote.
    destruct (decide (cat = "")); [by left |].
    destruct (decide (file = "")); [by right |].
    simpl. by rewrite collectTags_spec.
  - apply sublist_filter.
  - intros path note line H1 H2. unfold scanLine. simpl negb. cbv iota.
    rewrite H1, H2. by rewrite collectTags_spec, parseTags_TrimSpace.
Qed.

Lemma C6_tags_rule_witness :
  scanLine "/n/blog/p.md" (mkNote (mkConfig "/n" "") "" None time.zero "p.md" "T") true
           "- Tags: a, , b ,"
  = next (withTags (mkNote (mkConfig "/n" "") "" None time.zero "p.md" "T") ["a"; "b"]) true.
Proof.
  destruct (C6_tags_rule time.zero "blog" "" "p" "" (mkConfig "/n" ""))
    as (_ & _ & _ & _ & _ & H).
  exact (H "/n/blog/p.md" (mkNote (mkConfig "/n" "") "" None time.zero "p.md" "T")
           "- Tags: a, , b ," eq_refl eq_refl).
Defined.

(** ** Writing a note *)

Lemma Repeat_length (c : ascii) (n : nat) :
  String.length (strings.Repeat (String c "") n) = n.
Proof. induction n as [|n IH]; [done |]. simpl. sapp. by rewrite IH. Qed.

Lemma Repeat_all (c : ascii) (n : nat) :
  Str.all (fun a => bool_decide (a = c)) (strings.Repeat (String c "") n) = true.
Proof.
  induction n as [|n IH]; [done |]. simpl. sapp.
  rewrite IH, andb_true_r. by apply bool_decide_eq_true.
Qed.

Lemma Mkdir_files (path : string) (fs : os.FS) :
  os.files (os.Mkdir path fs).1 = os.files fs.
Proof.
  unfold os.Mkdir.
  repeat (case_match; simpl; try done).
Qed.

Lemma MkdirAllRec_files (fuel : nat) (path : string) (fs : os.FS) :
  os.files (os.MkdirAllRec fuel path fs).1 = os.files fs.
Proof.
  revert path fs; induction fuel as [|fuel IH]; intros path fs; simpl.
  - repeat (case_match; simpl; try done);
      match goal with H : os.Mkdir ?p ?f = _ |- _ =>
        pose proof (Mkdir_files p f) as M; rewrite H in M; exact M end.
  - destruct (os.Stat fs path) as [[|]|e0]; try done.
    destruct (os.parent path) as [par|].
    + specialize (IH par fs).
      destruct (os.MkdirAllRec fuel par fs) as [fs1 [e|]]; [done |].
      simpl in IH. rewrite <- IH.
      pose proof (Mkdir_files path fs1) as M.
      destruct (os.Mkdir path fs1) as [fs2 [e|]]; simpl in *; [| done].
      by destruct (os.IsDir fs2 path).
    + pose proof (Mkdir_files path fs) as M.
      destruct (os.Mkdir path fs) as [fs2 [e|]]; simpl in *; [| done].
      by destruct (os.IsDir fs2 path).
Qed.

Lemma MkdirAll_files (path : string) (fs : os.FS) :
  os.files (os.MkdirAll path fs).1 = os.files fs.
Proof. apply MkdirAllRec_files. Qed.

(** C5: the file [Create] writes holds the title line (the title, or the
    file name without its extension when the title is empty), a bar of [=]
    exactly as long as the title in bytes, the lines [- Category: ],
    [- Tags: ] (tags joined by a comma and a space) and [- Created: ]
    (RFC 3339) in this order, and one empty line; nothing else.  The title
    [Hello] gets the bar [=====]. *)
Theorem C5_create_content :
  forall (note : Note) (fs : os.FS),
    let title := titleOf note in
    let bar := strings.Repeat "=" (String.length title) in
    let content :=
      title +:+ nl +:+ bar +:+ nl +:+
      "- Category: " +:+ Category note +:+ nl +:+
      "- Tags: " +:+ strings.Join (default [] (Tags note)) ", " +:+ nl +:+
      "- Created: " +:+ time.Format (Created note) +:+ nl +:+ nl in
    title = (if decide (Title note = "")
             then strings.TrimSuffix (File note) (filepath.Ext (File note))
             else Title note)
    /\ String.length bar = String.length title
    /\ Str.all (fun c => bool_decide (c = "="%char)) bar = true
    /\ (title = "Hello" -> bar = "=====")
    /\ (forall fs', Create note fs = (fs', None) ->
          os.files fs' =
          <[filepath.Join [DirPath note; File note] := mkStream content None]> (os.files fs))
    /\ (forall fs' e, Create note fs = (fs', Some e) -> os.files fs' = os.files fs).
Proof.
  intros note fs title bar content.
  assert (render note = content) as R.
  { unfold render, content. fold title. fold bar. by rewrite !app_assoc. }
  split; [done |]. split; [apply Repeat_length |]. split; [apply Repeat_all |].
  split; [by intros E; unfold bar; rewrite E |].
  pose proof (MkdirAll_files (DirPath note) fs) as M.
  unfold Create. rewrite R.
  destruct (os.MkdirAll (DirPath note) fs) as [fs1 [e1|]]; simpl in M.
  - split; intros; simplify_eq; done.
  - destruct (os.Stat fs1 _) as [b|e2].
    + split; intros; simplify_eq; done.
    + unfold os.WriteFile.
      destruct (os.IsDir fs1 _); cbn [wrap].
      { split; intros; simplify_eq; done. }
      match goal with |- context [if ?b then _ else _] => destruct b end; cbn [wrap];
        (split; intros ? **; simplify_eq; cbn [os.files]; congruence).
Qed.

Lemma C5_create_content_witness :
  strings.Repeat "=" (String.length "Hello") = "====="
  /\ os.files (Create (mkNote (mkConfig "/n" "") "blog" (Some ["foo"; "bar"])
                        (time.mkTime 2018 11 3 9 5 0 0 32400) "hello.md" "Hello")
                      (os.mkFS ∅ ∅)).1
     = {[ "/n/blog/hello.md" := mkStream "Hello
=====
- Category: blog
- Tags: foo, bar
- Created: 2018-11-03T09:05:00+09:00

" None ]}.
Proof.
  pose (note := mkNote (mkConfig "/n" "") "blog" (Some ["foo"; "bar"])
                  (time.mkTime 2018 11 3 9 5 0 0 32400) "hello.md" "Hello").
  destruct (C5_create_content note (os.mkFS ∅ ∅)) as (_ & _ & _ & Hbar & Hok & _).
  split; [exact (Hbar eq_refl) |].
  rewrite (Hok (Create note (os.mkFS ∅ ∅)).1); [by vm_compute | by vm_compute].
Defined.

(** ** Lexical path processing *)

Lemma Split_app (x y : string) (sep : ascii) :
  strings.Split (x +:+ String sep y) sep = strings.Split x sep ++ strings.Split y sep.
Proof.
  induction x as [|c x IH]; sapp.
  - by rewrite decide_True.
  - destruct (decide (c = sep)); [by rewrite IH |].
    rewrite IH. destruct (strings.Split x sep) eqn:E; [by apply Split_not_nil in E | done].
Qed.

Lemma mem_app (c : ascii) (a b : string) :
  Str.mem c (a +:+ b) = Str.mem c a || Str.mem c b.
Proof.
  induction a as [|x a IH]; sapp; [done |]. by destruct (decide (x = c)).
Qed.

Lemma Join_cons (x : string) (l : list string) (sep : string) :
  l <> [] -> strings.Join (x :: l) sep = x +:+ sep +:+ strings.Join l sep.
Proof. by destruct l. Qed.

Lemma Join_snoc (l : list string) (x sep : string) :
  l <> [] -> strings.Join (l ++ [x]) sep = strings.Join l sep +:+ sep +:+ x.
Proof.
  induction l as [|y l IH]; [done |]. intros _.
  destruct l as [|z l]; [done |].
  change ((y :: z :: l) ++ [x]) with (y :: ((z :: l) ++ [x])).
  rewrite Join_cons by done. rewrite IH by done.
  rewrite (Join_cons y (z :: l)) by done. by rewrite !app_assoc.
Qed.

Lemma Split_Join (l : list string) (sep : ascii) :
  l <> [] -> Forall (fun e => Str.mem sep e = false) l ->
  strings.Split (strings.Join l (String sep "")) sep = l.
Proof.
  induction l as [|x l IH]; [done |]. intros _ H.
  apply Forall_cons in H as [Hx Hl].
  destruct l as [|y l]; [by apply Split_nosep |].
  rewrite Join_cons by done. sapp.
  rewrite Split_app, IH by done. by rewrite Split_nosep.
Qed.

Lemma Split_no_sep (s : string) (sep : ascii) :
  Forall (fun e => Str.mem sep e = false) (strings.Split s sep).
Proof.
  induction s as [|c s IH]; simpl; [by repeat constructor |].
  destruct (decide (c = sep)); [by constructor |].
  destruct (strings.Split s sep) as [|h t]; [repeat constructor; simpl; by rewrite decide_False |].
  apply Forall_cons in IH as [Hh Ht]. constructor; [| done].
  simpl. by rewrite decide_False.
Qed.

Lemma cleanStep_cleaned (rooted : bool) (st : list string) (e : string) :
  cleaned rooted st -> Str.mem "/"%char e = false -> cleaned rooted (filepath.cleanStep rooted st e).
Proof.
  intros (ns & k & -> & Hns & Hk) He. unfold filepath.cleanStep.
  destruct (decide (e = "")) as [->|E1]; [by exists ns, k |].
  destruct (decide (e = ".")) as [->|E2]; [by exists ns, k |].
  rewrite !bool_decide_eq_false_2 by done. cbn [orb].
  destruct (decide (e = "..")) as [->|E3].
  - rewrite bool_decide_eq_true_2 by done.
    destruct ns as [|n ns]; cbn [app].
    + destruct k as [|k]; cbn [replicate].
      * destruct rooted; [by exists [], 0%nat | exists [], 1%nat; split; [done | split; [done | intros; done]]].
      * rewrite bool_decide_eq_true_2 by done.
        exists [], (S (S k)). repeat split; [done |]. intros H. by specialize (Hk H).
    + apply Forall_cons in Hns as [(_ & _ & Hn & _) Hns].
      rewrite bool_decide_eq_false_2 by done. by exists ns, k.
  - rewrite bool_decide_eq_false_2 by done.
    exists (e :: ns), k. repeat split; [| done]. constructor; [done | done].
Qed.

Lemma fold_cleaned (rooted : bool) (elems st : list string) :
  Forall (fun e => Str.mem "/"%char e = false) elems ->
  cleaned rooted st -> cleaned rooted (fold_left (filepath.cleanStep rooted) elems st).
Proof.
  revert st; induction elems as [|e elems IH]; intros st H Hst; [done |].
  apply Forall_cons in H as [He H]. simpl. apply IH; [done |].
  by apply cleanStep_cleaned.
Qed.

Lemma cleaned_nil (rooted : bool) : cleaned rooted [].
Proof. by exists [], 0%nat. Qed.

Lemma fold_push_normal (rooted : bool) (ns base : list string) :
  Forall normalElem ns ->
  fold_left (filepath.cleanStep rooted) (rev ns) base = ns ++ base.
Proof.
  induction ns as [|n ns IH]; [done |]. intros H.
  apply Forall_cons in H as [(H1 & H2 & H3 & _) H].
  simpl. rewrite fold_left_app, IH by done. simpl. unfold filepath.cleanStep.
  by rewrite !bool_decide_eq_false_2.
Qed.

Lemma fold_push_dotdot (k : nat) (j : nat) :
  fold_left (filepath.cleanStep false) (replicate k "..") (replicate j "..") = replicate (k + j) "..".
Proof.
  revert j; induction k as [|k IH]; intros j; [done |].
  cbn [replicate fold_left].
  replace (filepath.cleanStep false (replicate j "..") "..") with (replicate (S j) "..").
  - rewrite IH. f_equal. lia.
  - unfold filepath.cleanStep. simpl. by destruct j.
Qed.

Lemma rev_replicate {A : Type} (k : nat) (x : A) : rev (replicate k x) = replicate k x.
Proof.
  induction k as [|k IH]; [done |]. simpl. rewrite IH.
  clear IH. induction k as [|k IH]; [done |]. simpl. by rewrite IH.
Qed.

(** Cleaning what is clean already rebuilds the same elements. *)
Lemma fold_rev_cleaned (rooted : bool) (st : list string) :
  cleaned rooted st -> fold_left (filepath.cleanStep rooted) (rev st) [] = st.
Proof.
  intros (ns & k & -> & Hns & Hk).
  rewrite rev_app_distr, fold_left_app, rev_replicate.
  destruct rooted.
  - rewrite Hk by done. simpl. by apply fold_push_normal.
  - change (@nil string) with (replicate 0 "..") at 1.
    rewrite (fold_push_dotdot k 0), Nat.add_0_r. by apply fold_push_normal.
Qed.

Lemma Clean_eq (path : string) :
  path <> "" ->
  filepath.Clean path =
  assemble (strings.HasPrefix path "/")
           (fold_left (filepath.cleanStep (strings.HasPrefix path "/"))
                      (strings.Split path "/"%char) []).
Proof. intros H. unfold filepath.Clean, assemble. by rewrite decide_False. Qed.

Lemma cleaned_elems (rooted : bool) (st : list string) :
  cleaned rooted st ->
  Forall (fun e => e <> "" /\ Str.mem "/"%char e = false) st.
Proof.
  intros (ns & k & -> & Hns & _). apply Forall_app. split.
  - eapply Forall_impl; [exact Hns |]. intros e (? & ? & ? & ?). done.
  - apply Forall_replicate. done.
Qed.

Lemma Join_head (l : list string) (sep : string) (c : ascii) (x : string) :
  exists r, strings.Join (String c x :: l) sep = String c r.
Proof. destruct l; [by exists x |]. rewrite Join_cons by done. sapp. eauto. Qed.

Lemma HasPrefix_app_l (a b : string) (p : ascii) :
  a <> "" -> strings.HasPrefix (a +:+ b) (String p "") = strings.HasPrefix a (String p "").
Proof.
  destruct a as [|c a]; [done |]. intros _. sapp. unfold strings.HasPrefix. simpl.
  destruct (ascii_dec p c); [| done]. by destruct a, (_ +:+ _).
Qed.

Lemma HasPrefix_head (c p : ascii) (s : string) :
  strings.HasPrefix (String c s) (String p "") = bool_decide (p = c).
Proof.
  unfold strings.HasPrefix. simpl.
  destruct (ascii_dec p c); [rewrite bool_decide_eq_true_2 by done; by destruct s |].
  by rewrite bool_decide_eq_false_2.
Qed.

Lemma assemble_not_nil (rooted : bool) (st : list string) : assemble rooted st <> "".
Proof.
  unfold assemble. destruct rooted; [done |].
  by destruct (decide (strings.Join (rev st) "/" = "")).
Qed.

Lemma assemble_rooted (rooted : bool) (st : list string) :
  cleaned rooted st -> strings.HasPrefix (assemble rooted st) "/" = rooted.
Proof.
  intros H. unfold assemble. destruct rooted; [by rewrite app_cons, HasPrefix_head |].
  destruct (decide (strings.Join (rev st) "/" = "")); [done |].
  apply cleaned_elems in H. apply Forall_rev in H.
  destruct (rev st) as [|x l]; [done |].
  apply Forall_cons in H as [[Hx Hm] _].
  destruct x as [|c x]; [done |].
  destruct (Join_head l "/" c x) as [r ->].
  simpl in Hm. destruct (decide (c = "/"%char)); [done |].
  rewrite HasPrefix_head. by rewrite bool_decide_eq_false_2.
Qed.

Lemma fold_Split_assemble (rooted : bool) (st : list string) :
  cleaned rooted st ->
  fold_left (filepath.cleanStep rooted) (strings.Split (assemble rooted st) "/"%char) [] = st.
Proof.
  intros H. pose proof (fold_rev_cleaned _ _ H) as F.
  pose proof (cleaned_elems _ _ H) as E. apply Forall_rev in E.
  assert (Forall (fun e => Str.mem "/"%char e = false) (rev st)) as E'
    by (eapply Forall_impl; [exact E | by intros ? [_ ?]]).
  unfold assemble. destruct rooted.
  - change ("/" +:+ strings.Join (rev st) "/") with ("" +:+ String "/"%char (strings.Join (rev st) "/")).
    rewrite Split_app. cbn [strings.Split app fold_left].
    destruct (rev st) as [|x l] eqn:R.
    + by cbn in *.
    + rewrite Split_Join by done. exact F.
  - destruct (decide (strings.Join (rev st) "/" = "")) as [J|J].
    + destruct (rev st) as [|x l] eqn:R; [by cbn in * |].
      apply Forall_cons in E as [[Hx _] _].
      destruct x as [|c x]; [done |].
      destruct (Join_head l "/" c x) as [r Hr]. congruence.
    + destruct (rev st) as [|x l] eqn:R; [done |].
      rewrite Split_Join by done. exact F.
Qed.

(** [Clean] of a cleaned path and more elements is [Clean] of the whole. *)
Lemma Clean_Clean_app (x f : string) :
  x <> "" ->
  filepath.Clean (filepath.Clean x +:+ "/" +:+ f) = filepath.Clean (x +:+ "/" +:+ f).
Proof.
  intros Hx.
  assert (cleaned (strings.HasPrefix x "/")
            (fold_left (filepath.cleanStep (strings.HasPrefix x "/")) (strings.Split x "/"%char) []))
    as Hc by (apply fold_cleaned; [apply Split_no_sep | apply cleaned_nil]).
  rewrite (Clean_eq x Hx).
  set (r := strings.HasPrefix x "/") in *.
  set (st := fold_left (filepath.cleanStep r) (strings.Split x "/"%char) []) in *.
  rewrite !Clean_eq.
  - rewrite !HasPrefix_app_l by (done || apply assemble_not_nil).
    rewrite assemble_rooted by done. fold r.
    change ("/" +:+ f) with (String "/"%char f).
    rewrite !Split_app, !fold_left_app. fold st.
    by rewrite fold_Split_assemble.
  - by destruct x.
  - pose proof (assemble_not_nil r st). by destruct (assemble r st).
Qed.

(** The file path of a note is the path [Create] writes to. *)
Lemma Clean_not_nil (path : string) : filepath.Clean path <> "".
Proof.
  destruct (decide (path = "")) as [->|H]; [done |].
  rewrite Clean_eq by done. apply assemble_not_nil.
Qed.

Lemma Join_DirPath (note : Note) :
  filepath.Join [DirPath note; File note] = FilePath note.
Proof.
  unfold DirPath, FilePath.
  destruct (HomePath (Cfg note)) as [|c h] eqn:Eh.
  - destruct (Category note) as [|c cat] eqn:Ec.
    { cbn [filepath.Join]. rewrite !(decide_True (P := "" = "")) by done. reflexivity. }
    cbn [filepath.Join]. rewrite !(decide_True (P := "" = "")) by done.
    rewrite !(decide_False (P := String c cat = "")) by done.
    rewrite decide_False by apply Clean_not_nil.
    cbn [strings.Join]. by apply Clean_Clean_app.
  - cbn [filepath.Join].
    rewrite !(decide_False (P := String c h = "")) by done.
    rewrite decide_False by apply Clean_not_nil.
    cbn [strings.Join].
    rewrite Clean_Clean_app by done. by rewrite !app_assoc.
Qed.

(** ** [Create] on an existing file *)



Lemma MkdirAll_existing (path : string) (fs : os.FS) :
  os.IsDir fs path = true -> os.MkdirAll path fs = (fs, None).
Proof.
  intros H. unfold os.MkdirAll.
  destruct (String.length path); simpl; unfold os.Stat; by rewrite H.
Qed.



Lemma MkdirAllRec_ok (fuel : nat) (path : string) (fs fs1 : os.FS) :
  os.MkdirAllRec fuel path fs = (fs1, None) -> os.IsDir fs1 path = true.
Proof.
  assert (forall fs0 fs2, match os.Mkdir path fs0 with
                          | (fs2, Some e) => if os.IsDir fs2 path then (fs2, None) else (fs2, Some e)
                          | (fs2, None) => (fs2, None)
                          end = (fs2, None) -> os.IsDir fs2 path = true) as Hmk.
  { intros fs0 fs2. destruct (os.Mkdir path fs0) as [fs3 [e|]] eqn:E.
    - destruct (os.IsDir fs3 path) eqn:D; intros; simplify_eq; done.
    - intros; simplify_eq. unfold os.Mkdir in E.
      repeat (case_match; simplify_eq); unfold os.IsDir; cbn [os.dirs];
        rewrite bool_decide_eq_true_2 by set_solver; done. }
  destruct fuel as [|fuel]; simpl.
  - unfold os.Stat. destruct (os.IsDir fs path) eqn:D; [by intros; simplify_eq |].
    destruct (os.IsFile fs path); [done |].
    destruct (os.parent path); [done | apply Hmk].
  - unfold os.Stat. destruct (os.IsDir fs path) eqn:D; [by intros; simplify_eq |].
    destruct (os.IsFile fs path); [done |].
    destruct (os.parent path); [| apply Hmk].
    destruct (os.MkdirAllRec fuel s fs) as [fs0 [e|]]; [done | apply Hmk].
Qed.



(** Creating the same note twice: the second call is rejected and changes
    nothing. *)
Lemma Create_twice (note : Note) (fs fs1 : os.FS) :
  Create note fs = (fs1, None) ->
  Create note fs1 =
  (fs1, Some (New ("Cannot create new note since file '" +:+ RelFilePath note
                   +:+ "' already exists. Please edit it"))).
Proof.
  unfold Create at 1. rewrite Join_DirPath.
  destruct (os.MkdirAll (DirPath note) fs) as [fsa [e|]] eqn:M; [done |].
  apply MkdirAllRec_ok in M.
  destruct (os.Stat fsa (FilePath note)) as [b|e] eqn:S; [done |].
  unfold os.WriteFile.
  destruct (os.IsDir fsa (FilePath note)) eqn:D; [done |].
  match goal with |- context [if ?b then _ else _] => destruct b end; [| done].
  cbn [wrap]. intros [= <-].
  unfold Create. rewrite Join_DirPath.
  rewrite MkdirAll_existing by done.
  unfold os.Stat, os.IsDir in *. cbn [os.dirs os.files] in *. rewrite D.
  unfold os.IsFile. cbn [os.files].
  rewrite bool_decide_eq_true_2; [done |].
  rewrite lookup_insert_eq. eauto.
Qed.

(** ** [LoadNote] *)

Lemma scanLoop_prefix (path : string) (pre pending : list string) (tl : string)
    (stop : error) (note n : Note) (tf t : bool) :
  scanPrefix path note tf pre = Some (n, t) ->
  scanLoop path note tf (pre ++ pending) tl stop = scanLoop path n t pending tl stop.
Proof.
  revert note tf; induction pre as [|l pre IH]; intros note tf H; simpl in *.
  - by injection H as -> ->.
  - destruct (bufio.MaxScanTokenSize <? Str.len l); [done |].
    fold (token l).
    destruct (scanLine path note tf (token l)) as [n' t'| |]; try done.
    by apply IH.
Qed.

Lemma Base_not_nil (path : string) : filepath.Base path <> "".
Proof.
  unfold filepath.Base. destruct (decide (path = "")); [done |].
  by destruct (decide _).
Qed.

(** A category line that does not name the parent directory makes the body
    of the scan loop return. *)
Lemma scanLine_mismatch (path : string) (note : Note) (line : string) :
  strings.HasPrefix line "- Category: " = true ->
  strings.TrimSpace (Str.drop 12 line) <> filepath.Base (filepath.Dir path) ->
  scanLine path note true line =
  Return (errMismatch (filepath.Base (filepath.Dir path))
                      (strings.TrimSpace (Str.drop 12 line))).
Proof.
  intros Hp Hc. unfold scanLine. simpl negb. cbv iota. rewrite Hp.
  cbn [Category withCategory]. by rewrite decide_False.
Qed.

(** It ends the scan at once, whatever lines follow. *)
Lemma scanLoop_mismatch (path : string) (note : Note) (l : string)
    (pending : list string) (tl : string) (stop : error) :
  Str.len l <= bufio.MaxScanTokenSize ->
  strings.HasPrefix (token l) "- Category: " = true ->
  strings.TrimSpace (Str.drop 12 (token l)) <> filepath.Base (filepath.Dir path) ->
  scanLoop path note true (l :: pending) tl stop =
  Err (errMismatch (filepath.Base (filepath.Dir path))
                   (strings.TrimSpace (Str.drop 12 (token l)))).
Proof.
  intros Hl Hp Hc. simpl.
  destruct (bufio.MaxScanTokenSize <? Str.len l) eqn:E; [lia |].
  fold (token l). by rewrite scanLine_mismatch.
Qed.

(** So it does as the unterminated last line of the stream. *)
Lemma scanLoop_mismatch_last (path : string) (note : Note) (tl : string) (stop : error) :
  tl <> "" -> Str.len tl < bufio.MaxScanTokenSize ->
  strings.HasPrefix (bufio.dropCR tl) "- Category: " = true ->
  strings.TrimSpace (Str.drop 12 (bufio.dropCR tl)) <> filepath.Base (filepath.Dir path) ->
  scanLoop path note true [] tl stop =
  Err (errMismatch (filepath.Base (filepath.Dir path))
                   (strings.TrimSpace (Str.drop 12 (bufio.dropCR tl)))).
Proof.
  intros Hn Hl Hp Hc. simpl.
  destruct (bufio.MaxScanTokenSize <=? Str.len tl) eqn:E; [lia |].
  rewrite decide_False by done. by rewrite scanLine_mismatch.
Qed.

(** [LoadNote] on a file whose category line, delivered behind the lines
    [pre], does not name the parent directory. *)
Lemma LoadNote_mismatch (canonPath : string -> string) (open : string -> result Stream)
    (path : string) (cfg : Config) (f : Stream) (pre : list string) (line : string)
    (note : Note) :
  open path = Ok f ->
  delivered (data f) pre line ->
  scanPrefix path (mkNote cfg "" None time.zero (filepath.Base path) "") false pre
    = Some (note, true) ->
  strings.HasPrefix line "- Category: " = true ->
  strings.TrimSpace (Str.drop 12 line) <> filepath.Base (filepath.Dir path) ->
  LoadNote canonPath open path cfg =
  Err (errMismatch (filepath.Base (filepath.Dir path))
                   (strings.TrimSpace (Str.drop 12 line))).
Proof.
  intros Ho Hd Hpre Hp Hne.
  unfold LoadNote, loadFrom, bufio.NewReader. rewrite Ho.
  destruct Hd as [(l & later & tl & Hc & Hl & ->)|(tl & Hc & Hn & Hl & ->)];
    rewrite Hc; cbn [bufio.pending bufio.rest bufio.stop].
  - rewrite (scanLoop_prefix _ _ _ _ _ _ _ _ _ Hpre).
    by rewrite scanLoop_mismatch.
  - rewrite <- (List.app_nil_r pre).
    rewrite (scanLoop_prefix _ _ _ _ _ _ _ _ _ Hpre).
    by rewrite scanLoop_mismatch_last.
Qed.

(** C2: when the category that [LoadNote] parses from the header differs
    from the base name of the parent directory of the file, [LoadNote]
    fails with the error that names both, at that line: no note is returned
    and the lines behind it play no part.  The category line is any token
    of the scanner behind the title bar, also the unterminated last line of
    the file; the parsed category is what [strings.TrimSpace] leaves of the
    text behind the prefix, with Unicode white space taken off. *)
Theorem C2_category_mismatch :
  forall (canonPath : string -> string) (open : string -> result Stream)
         (path : string) (cfg : Config) (f : Stream)
         (pre : list string) (line : string) (note : Note),
    open path = Ok f ->
    delivered (data f) pre line ->
    scanPrefix path (mkNote cfg "" None time.zero (filepath.Base path) "") false pre
      = Some (note, true) ->
    strings.HasPrefix line "- Category: " = true ->
    strings.TrimSpace (Str.drop 12 line) <> filepath.Base (filepath.Dir path) ->
    LoadNote canonPath open path cfg =
      Err (errMismatch (filepath.Base (filepath.Dir path))
                       (strings.TrimSpace (Str.drop 12 line)))
    /\ (forall note' : Note,
          scanLine path note' true line =
          Return (errMismatch (filepath.Base (filepath.Dir path))
                              (strings.TrimSpace (Str.drop 12 line))))
    /\ (forall (l : string) (later' : list string) (tl' : string) (stop' : error),
          Str.len l <= bufio.MaxScanTokenSize -> token l = line ->
          scanLoop path note true (l :: later') tl' stop' =
          Err (errMismatch (filepath.Base (filepath.Dir path))
                           (strings.TrimSpace (Str.drop 12 line))))
    /\ (forall (tl' : string) (stop' : error),
          tl' <> "" -> Str.len tl' < bufio.MaxScanTokenSize -> bufio.dropCR tl' = line ->
          scanLoop path note true [] tl' stop' =
          Err (errMismatch (filepath.Base (filepath.Dir path))
                           (strings.TrimSpace (Str.drop 12 line)))).
Proof.
  intros cp open path cfg f pre line note Ho Hd Hpre Hp Hne.
  split; [by apply (LoadNote_mismatch cp open path cfg f pre line note) |].
  split; [intros; by apply scanLine_mismatch |].
  split.
  - intros l later' tl' stop' Hl <-. by apply scanLoop_mismatch.
  - intros tl' stop' Hn Hl <-. by apply scanLoop_mismatch_last.
Qed.

Lemma C2_category_mismatch_witness :
  LoadNote id (fun _ => Ok (mkStream "Title
=====
- Category: elsewhere
- Tags: a
- Created: not a date
" None)) "/n/blog/p.md" (mkConfig "/n" "")
  = Err (New "Category does not match between file path and file content, in path 'blog' v.s. in file 'elsewhere'").
Proof.
  pose (f := mkStream "Title
=====
- Category: elsewhere
- Tags: a
- Created: not a date
" None).
  refine (proj1 (C2_category_mismatch id (fun _ => Ok f) "/n/blog/p.md" (mkConfig "/n" "") f
            ["Title
"; "=====
"] "- Category: elsewhere"
            (mkNote (mkConfig "/n" "") "" None time.zero "p.md" "Title") eq_refl _ _ _ _)).
  - left. exists "- Category: elsewhere
", ["- Tags: a
"; "- Created: not a date
"], "". by vm_compute.
  - by vm_compute.
  - by vm_compute.
  - by vm_compute.
Defined.

(** C10: a [- Category: ] line of the header whose remainder trims to the
    empty string makes [LoadNote] fail with the category mismatch error and
    not with the missing metadata error: the base name of the parent
    directory is never empty.  The remainder trims to the empty string when
    it is Unicode white space throughout; the line is any token of the
    scanner behind the title bar, also the unterminated last line. *)
Theorem C10_empty_category :
  forall (canonPath : string -> string) (open : string -> result Stream)
         (path : string) (cfg : Config) (f : Stream)
         (pre : list string) (line : string) (note : Note),
    open path = Ok f ->
    delivered (data f) pre line ->
    scanPrefix path (mkNote cfg "" None time.zero (filepath.Base path) "") false pre
      = Some (note, true) ->
    strings.HasPrefix line "- Category: " = true ->
    strings.TrimSpace (Str.drop 12 line) = "" ->
    filepath.Base (filepath.Dir path) <> ""
    /\ LoadNote canonPath open path cfg =
       Err (errMismatch (filepath.Base (filepath.Dir path)) "")
    /\ LoadNote canonPath open path cfg <> Err (errMissing canonPath path).
Proof.
  intros cp open path cfg f pre line note Ho Hd Hpre Hp He.
  pose proof (Base_not_nil (filepath.Dir path)) as Hb.
  assert (LoadNote cp open path cfg =
          Err (errMismatch (filepath.Base (filepath.Dir path)) "")) as R.
  { rewrite <- He.
    apply (LoadNote_mismatch cp open path cfg f pre line note); try done.
    by rewrite He. }
  split; [done |]. split; [done |].
  rewrite R. unfold errMismatch, errMissing. intros [= E].
Qed.

Lemma C10_empty_category_witness :
  LoadNote id (fun _ => Ok (mkStream ("Title
=====
- Category:  " +:+ nbsp +:+ ideographicSpace +:+ "
- Tags: a
") None)) "/n/blog/p.md" (mkConfig "/n" "")
  = Err (New "Category does not match between file path and file content, in path 'blog' v.s. in file ''").
Proof.
  pose (f := mkStream ("Title
=====
- Category:  " +:+ nbsp +:+ ideographicSpace +:+ "
- Tags: a
") None).
  refine (proj1 (proj2 (C10_empty_category id (fun _ => Ok f) "/n/blog/p.md" (mkConfig "/n" "") f
            ["Title
"; "=====
"] ("- Category:  " +:+ nbsp +:+ ideographicSpace)
            (mkNote (mkConfig "/n" "") "" None time.zero "p.md" "Title") eq_refl _ _ _ _))).
  - left. exists ("- Category:  " +:+ nbsp +:+ ideographicSpace +:+ "
"), ["- Tags: a
"], "". by vm_compute.
  - by vm_compute.
  - by vm_compute.
  - by vm_compute.
Defined.

Lemma scanLine_no_bar (path : string) (note : Note) (line : string) :
  reTitleBar line = false ->
  scanLine path note false line = next (withTitle note line) false.
Proof. intros H. unfold scanLine. simpl. by rewrite H. Qed.

Lemma next_no_category (note : Note) (tf : bool) :
  Category note = "" -> next note tf = Continue note tf.
Proof. intros H. unfold next, complete. by rewrite H. Qed.

(** Before the bar the loop only keeps the last line as the title. *)
Lemma scanPrefix_no_bar (path : string) (pre : list string) (note : Note) :
  Category note = "" ->
  Forall (fun l => Str.len l <= bufio.MaxScanTokenSize /\ reTitleBar (token l) = false) pre ->
  scanPrefix path note false pre
  = Some (withTitle note (default (Title note) (last (token <$> pre))), false).
Proof.
  revert note; induction pre as [|l pre IH]; intros note Hc H.
  - by destruct note.
  - apply Forall_cons in H as [[Hl Hb] H]. simpl.
    destruct (bufio.MaxScanTokenSize <? Str.len l) eqn:E; [lia |].
    rewrite scanLine_no_bar, next_no_category by done.
    rewrite IH by done. f_equal. unfold withTitle. cbn [Cfg Category Tags Created File Title].
    f_equal. f_equal.
    change (list_fmap string string token pre) with (token <$> pre).
    generalize (token <$> pre). intros [|x xs]; [done |].
    rewrite last_cons_cons. destruct (last (x :: xs)) eqn:El; [done |].
    by apply last_None in El.
Qed.

Lemma scanLine_title_kept (path : string) (note : Note) (line : string) :
  match scanLine path note true line with
  | Continue n t | Break n t => Title n = Title note /\ t = true
  | Return _ => True
  end.
Proof.
  unfold scanLine, next. simpl negb. cbv iota.
  repeat match goal with
         | |- context [if ?b then _ else _] => destruct b
         | |- context [match time.Parse ?v with _ => _ end] => destruct (time.Parse v)
         end; done.
Qed.

Lemma scanLoop_title_kept (path : string) (pending : list string) (tl : string)
    (stop : error) (note n : Note) (t : bool) (serr : option error) :
  scanLoop path note true pending tl stop = Ok (n, t, serr) ->
  Title n = Title note /\ (serr = None -> t = true).
Proof.
  revert note; induction pending as [|l pending IH]; intros note; simpl.
  - destruct (bufio.MaxScanTokenSize <=? Str.len tl); [by intros [= <- <- <-] |].
    destruct (decide (tl = "")); [by intros [= <- <- <-] |].
    pose proof (scanLine_title_kept path note (bufio.dropCR tl)) as K.
    destruct (scanLine path note true (bufio.dropCR tl)); try done;
      intros [= <- <- <-]; by destruct K.
  - destruct (bufio.MaxScanTokenSize <? Str.len l); [by intros [= <- <- <-] |].
    pose proof (scanLine_title_kept path note (bufio.dropCR (bufio.chomp l))) as K.
    destruct (scanLine path note true (bufio.dropCR (bufio.chomp l))) as [n' t'|n' t'|]; try done.
    + destruct K as [K ->]. intros H. apply IH in H. by rewrite <- K.
    + intros [= <- <- <-]. by destruct K.
Qed.

(** Without a bar the loop runs to the end of the stream with no title
    found. *)
Lemma scanLoop_no_bar (path : string) (pending : list string) (tl : string) (note : Note) :
  Category note = "" ->
  Forall (fun l => Str.len l <= bufio.MaxScanTokenSize /\ reTitleBar (token l) = false) pending ->
  Str.len tl < bufio.MaxScanTokenSize ->
  reTitleBar (bufio.dropCR tl) = false ->
  exists n, scanLoop path note false pending tl EOF = Ok (n, false, None).
Proof.
  revert note; induction pending as [|l pending IH]; intros note Hc H Ht Hb.
  - simpl. destruct (bufio.MaxScanTokenSize <=? Str.len tl) eqn:E; [lia |].
    destruct (decide (tl = "")); [by eexists |].
    rewrite scanLine_no_bar, next_no_category by done. by eexists.
  - apply Forall_cons in H as [[Hl Hbl] H]. simpl.
    destruct (bufio.MaxScanTokenSize <? Str.len l) eqn:E; [lia |].
    fold (token l). rewrite scanLine_no_bar, next_no_category by done.
    by apply IH.
Qed.

(** C3: before the title bar is found every line that is not a bar
    replaces the stored title, so a loaded note has the last line before
    the first bar as its title, or ["(no title)"] when no line, or the
    empty line, came last before the bar; a file that ends without any bar
    fails to load with the error for the missing title. *)
Theorem C3_title :
  forall (canonPath : string -> string) (open : string -> result Stream)
         (path : string) (cfg : Config) (f : Stream),
    open path = Ok f ->
    (forall (note : Note) (line : string),
        reTitleBar line = false ->
        scanLine path note false line = next (withTitle note line) false)
    /\ (forall (pre : list string) (bar : string) (later : list string) (tl : string) (n : Note),
          bufio.cut (data f) = (pre ++ bar :: later, tl) ->
          Forall (fun l => Str.len l <= bufio.MaxScanTokenSize
                           /\ reTitleBar (token l) = false) pre ->
          Str.len bar <= bufio.MaxScanTokenSize ->
          reTitleBar (token bar) = true ->
          LoadNote canonPath open path cfg = Ok n ->
          Title n = titleBefore (token <$> pre))
    /\ (forall (lines : list string) (tl : string),
          bufio.cut (data f) = (lines, tl) ->
          fault f = None ->
          Forall (fun l => Str.len l <= bufio.MaxScanTokenSize
                           /\ reTitleBar (token l) = false) lines ->
          Str.len tl < bufio.MaxScanTokenSize ->
          reTitleBar (bufio.dropCR tl) = false ->
          LoadNote canonPath open path cfg = Err (errNoTitle canonPath path)).
Proof.
  intros cp open path cfg f Ho. split; [intros; by apply scanLine_no_bar |]. split.
  - intros pre bar later tl n Hc Hpre Hl Hb.
    unfold LoadNote, loadFrom, bufio.NewReader. rewrite Ho, Hc.
    cbn [bufio.pending bufio.rest bufio.stop].
    rewrite (scanLoop_prefix _ _ _ _ _ _ _ _ _
               (scanPrefix_no_bar path pre (mkNote cfg "" None time.zero (filepath.Base path) "")
                                  eq_refl Hpre)).
    cbn [scanLoop].
    destruct (bufio.MaxScanTokenSize <? Str.len bar) eqn:E; [lia |].
    fold (token bar). unfold scanLine at 1. simpl negb. cbv iota. rewrite Hb.
    rewrite next_no_category by (by destruct (decide _)).
    match goal with |- context [scanLoop path ?x true later tl ?s] =>
      pose proof (scanLoop_title_kept path later tl s x) as K;
      destruct (scanLoop path x true later tl s) as [[[n' t'] serr]|e] end; [| done].
    specialize (K n' t' serr eq_refl) as [K _].
    destruct serr; [done |].
    assert (Title n' = titleBefore (token <$> pre)) as Ht.
    { rewrite K. unfold titleBefore. cbn [Title withTitle].
      destruct (last (token <$> pre)) as [t|]; simpl; [| done].
      destruct (decide (t = "")); by simplify_eq. }
    repeat (case_match; try done); by intros [= <-].
  - intros lines tl Hc Hf Hlines Htl Hb.
    unfold LoadNote, loadFrom, bufio.NewReader. rewrite Ho, Hc.
    cbn [bufio.pending bufio.rest bufio.stop].
    unfold ending. rewrite Hf.
    by destruct (scanLoop_no_bar path lines tl (mkNote cfg "" None time.zero (filepath.Base path) "")
                   eq_refl Hlines Htl Hb) as [n ->].
Qed.

Lemma C3_title_witness :
  (exists n,
     LoadNote id (fun _ => Ok (mkStream "draft
Title
=====
- Category: blog
- Tags: a
- Created: 2018-11-03T09:05:00Z
" None)) "/n/blog/p.md" (mkConfig "/n" "") = Ok n /\ Title n = "Title")
  /\ LoadNote id (fun _ => Ok (mkStream "Title
- Category: blog
" None)) "/n/blog/p.md" (mkConfig "/n" "")
     = Err (New "No title found in note '/n/blog/p.md'. Didn't you use '====' bar for h1 title?").
Proof.
  split.
  - pose (f := mkStream "draft
Title
=====
- Category: blog
- Tags: a
- Created: 2018-11-03T09:05:00Z
" None).
    destruct (C3_title id (fun _ => Ok f) "/n/blog/p.md" (mkConfig "/n" "") f eq_refl)
      as (_ & H & _).
    eexists. split; [by vm_compute |].
    apply (H ["draft
"; "Title
"] "=====
" ["- Category: blog
"; "- Tags: a
"; "- Created: 2018-11-03T09:05:00Z
"] "").
    + by vm_compute.
    + repeat constructor; by vm_compute.
    + by vm_compute.
    + by vm_compute.
    + by vm_compute.
  - pose (f := mkStream "Title
- Category: blog
" None).
    destruct (C3_title id (fun _ => Ok f) "/n/blog/p.md" (mkConfig "/n" "") f eq_refl)
      as (_ & _ & H).
    apply (H ["Title
"; "- Category: blog
"] "").
    + by vm_compute.
    + done.
    + repeat constructor; by vm_compute.
    + by vm_compute.
    + by vm_compute.
Defined.

(** ** [ReadBodyN] *)

Lemma observe_sawAll (saw : bool * bool * bool) (t : string) :
  sawAll saw = true -> sawAll (observe saw t) = true.
Proof.
  destruct saw as [[a b] c]. unfold sawAll, observe.
  intros H. apply andb_true_iff in H as [H ->]. apply andb_true_iff in H as [-> ->].
  destruct (strings.HasPrefix t "- Category: "); [done |].
  destruct (strings.HasPrefix t "- Tags:"); [done |].
  by destruct (strings.HasPrefix t "- Created: ").
Qed.

Lemma fold_observe_sawAll (lines : list string) (saw : bool * bool * bool) :
  sawAll saw = true -> sawAll (fold_left observe lines saw) = true.
Proof.
  revert saw; induction lines as [|l lines IH]; intros saw H; [done |].
  simpl. apply IH. by apply observe_sawAll.
Qed.

(** The metadata loop succeeds exactly when the markers are all there. *)
Lemma skipMetadata_Ok_iff (rel : string) (pending : list string) (tl : string)
    (stop : error) (saw : bool * bool * bool) :
  (exists r1, skipMetadata rel saw pending tl stop = Ok r1)
  <-> sawAll (fold_left observe (pending ++ [tl]) saw) = true.
Proof.
  revert saw; induction pending as [|t pending IH]; intros saw; simpl.
  - destruct (sawAll (observe saw tl)).
    + split; [done | eauto].
    + split; [intros [? ?]; done | done].
  - destruct (sawAll (observe saw t)) eqn:E.
    + split; [| eauto]. intros _. by apply fold_observe_sawAll.
    + apply IH.
Qed.

Lemma skipMetadata_Err (rel : string) (pending : list string) (tl : string)
    (stop : error) (saw : bool * bool * bool) (e : error) :
  skipMetadata rel saw pending tl stop = Err e -> e = errMetadata rel stop.
Proof.
  revert saw; induction pending as [|t pending IH]; intros saw; simpl.
  - destruct (sawAll (observe saw tl)); [done | by intros [= <-]].
  - destruct (sawAll (observe saw t)); [done | apply IH].
Qed.

Lemma skipMetadata_stop (rel : string) (pending : list string) (tl : string)
    (stop : error) (saw : bool * bool * bool) (r1 : bufio.Reader) :
  skipMetadata rel saw pending tl stop = Ok r1 -> bufio.stop r1 = stop.
Proof.
  revert saw; induction pending as [|t pending IH]; intros saw; simpl.
  - destruct (sawAll (observe saw tl)); [by intros [= <-] | done].
  - destruct (sawAll (observe saw t)); [by intros [= <-] | apply IH].
Qed.

Lemma skipEmpty_stop (pending : list string) (tl : string) (stop : error) :
  bufio.stop (skipEmpty pending tl stop).2 = stop.
Proof.
  induction pending as [|b pending IH]; simpl; [done |].
  by destruct (1 <? Str.len b).
Qed.

Lemma readBody_after_metadata (rel : string) (r r1 : bufio.Reader) (maxBytes : Z) :
  0 <= maxBytes ->
  skipMetadata rel (false, false, false) (bufio.pending r) (bufio.rest r) (bufio.stop r) = Ok r1 ->
  let '(buf, r2) := skipEmpty (bufio.pending r1) (bufio.rest r1) (bufio.stop r1) in
  readBody rel r maxBytes =
  if maxBytes <? Str.len buf then Some (Ok (Str.take (Z.to_nat maxBytes) buf))
  else if maxBytes - Str.len buf <=? Str.len (bufio.unread r2)
       then Some (Ok (buf +:+ Str.take (Z.to_nat (maxBytes - Str.len buf)) (bufio.unread r2)))
       else if decide (bufio.stop r = EOF) then Some (Ok (buf +:+ bufio.unread r2))
            else Some (Err (bufio.stop r)).
Proof.
  intros Hm Hs. unfold readBody. rewrite Hs.
  pose proof (skipEmpty_stop (bufio.pending r1) (bufio.rest r1) (bufio.stop r1)) as St.
  destruct (skipEmpty _ _ _) as [buf r2]. simpl in St.
  rewrite (skipMetadata_stop _ _ _ _ _ _ Hs) in St.
  destruct (maxBytes <? Str.len buf) eqn:E1.
  - destruct (0 <=? maxBytes) eqn:E2; [done | lia].
  - unfold CopyN. cbv zeta.
    destruct (maxBytes - Str.len buf <=? Str.len (bufio.unread r2)); [done |]. rewrite St.
    by destruct (decide (bufio.stop r = EOF)).
Qed.

(** C7, as the code has it: once the file is open and for a budget that is
    not negative, [ReadBodyN] fails exactly when the stream ends, by the end
    of the file or by a read failure, before all three markers have been
    observed, or when the first line it keeps fits the budget and the copy
    of the remaining budget meets a read failure other than the end of the
    stream; with the markers observed, a plain end of the stream gives a
    result, possibly empty. *)
Theorem C7_readBody_failure :
  forall (rel : string) (r : bufio.Reader) (maxBytes : Z),
    0 <= maxBytes ->
    (fails (readBody rel r maxBytes)
     <-> markersSeen (allReads r) = false \/ copyMeetsFailure rel r maxBytes)
    /\ (markersSeen (allReads r) = false ->
        readBody rel r maxBytes = Some (Err (errMetadata rel (bufio.stop r))))
    /\ (markersSeen (allReads r) = true -> bufio.stop r = EOF ->
        exists s, readBody rel r maxBytes = Some (Ok s))
    /\ (forall (note : Note) (fs : os.FS) (f : Stream),
          os.Open fs (FilePath note) = Ok f ->
          ReadBodyN note fs maxBytes
          = readBody (RelFilePath note) (bufio.NewReader f) maxBytes).
Proof.
  intros rel r maxBytes Hm.
  pose proof (skipMetadata_Ok_iff rel (bufio.pending r) (bufio.rest r) (bufio.stop r)
                (false, false, false)) as Hiff.
  fold (allReads r) in Hiff. fold (markersSeen (allReads r)) in Hiff.
  destruct (skipMetadata rel (false, false, false) (bufio.pending r) (bufio.rest r)
              (bufio.stop r)) as [r1|e] eqn:Hs.
  - assert (markersSeen (allReads r) = true) as Hseen by (apply Hiff; eauto).
    pose proof (readBody_after_metadata rel r r1 maxBytes Hm Hs) as Hr.
    unfold copyMeetsFailure. rewrite Hs.
    destruct (skipEmpty _ _ _) as [buf r2] eqn:Hse. rewrite Hr, Hseen.
    repeat split.
    + intros [e He]. right.
      destruct (maxBytes <? Str.len buf) eqn:E1; [done |].
      destruct (maxBytes - Str.len buf <=? Str.len (bufio.unread r2)) eqn:E2; [done |].
      destruct (decide (bufio.stop r = EOF)); [done |].
      split; [done |]. exists r1. split; [done |]. rewrite Hse. lia.
    + intros [? | (Hne & r1' & [= <-] & H)]; [done |]. rewrite Hse in H.
      destruct (maxBytes <? Str.len buf) eqn:E1; [lia |].
      destruct (maxBytes - Str.len buf <=? Str.len (bufio.unread r2)) eqn:E2; [lia |].
      rewrite decide_False by done. by eexists.
    + done.
    + intros _ He. rewrite decide_True by done. repeat case_match; eauto.
    + intros note fs f Ho. unfold ReadBodyN. by rewrite Ho.
  - assert (markersSeen (allReads r) = false) as Hseen.
    { destruct (markersSeen (allReads r)); [| done].
      destruct (proj2 Hiff eq_refl) as [? ?]. done. }
    assert (readBody rel r maxBytes = Some (Err (errMetadata rel (bufio.stop r)))) as Hr.
    { unfold readBody. rewrite Hs. by apply skipMetadata_Err in Hs as ->. }
    rewrite Hr, Hseen. repeat split; eauto.
    + by eexists.
    + done.
    + intros note fs f Ho. unfold ReadBodyN. by rewrite Ho.
Qed.

Lemma C7_readBody_failure_witness :
  (exists s, readBody "blog/p.md" (bufio.NewReader (mkStream "T
=
- Category: blog
- Tags: 
- Created: 2018-11-03T09:05:00Z
" None)) 10 = Some (Ok s))
  /\ fails (readBody "blog/p.md" (bufio.NewReader (mkStream "T
=
- Category: blog
" None)) 10).
Proof.
  split.
  - refine (proj1 (proj2 (proj2 (C7_readBody_failure "blog/p.md" _ 10 _))) _ _);
      [lia | by vm_compute | by vm_compute].
  - refine (proj2 (proj1 (C7_readBody_failure "blog/p.md" _ 10 _)) _); [lia |].
    left. by vm_compute.
Defined.

(** C7 as the specification words it fails on a stream whose read fails
    while the metadata is still being skipped: [ReadBodyN] returns the
    error, but the stream has not ended, and the failure does not lie behind
    the metadata block. *)
Lemma C7_counterexample :
  let r := bufio.NewReader (mkStream "x" (Some (Errno "EIO"))) in
  ~ (fails (readBody "blog/p.md" r 10)
     <-> reachesEOFBeforeMarkers r \/ readFailureAfterMetadata "blog/p.md" r 10).
Proof.
  intros r [H _].
  destruct H as [[He _] | [_ (r1 & Hs & _)]].
  - eexists. by vm_compute.
  - vm_compute in He. discriminate.
  - vm_compute in Hs. discriminate.
Qed.

(** A read failure met by the loop over empty lines is dropped: with a
    budget of zero nothing is read behind it, and [ReadBodyN] succeeds. *)
Lemma readBody_failure_dropped :
  readBody "blog/p.md" (bufio.NewReader (mkStream "- Category: blog
- Tags: 
- Created: 2018-11-03T09:05:00Z
" (Some (Errno "EIO")))) 0 = Some (Ok "").
Proof. by vm_compute. Qed.

Lemma skipEmpty_kept (blanks : list string) (b : string) (more : list string)
    (tl : string) (stop : error) :
  Forall (fun l => Str.len l <= 1) blanks -> 1 < Str.len b ->
  skipEmpty (blanks ++ b :: more) tl stop = (b, bufio.mkReader more tl stop).
Proof.
  intros Hb Hl. induction blanks as [|x blanks IH]; simpl.
  - destruct (1 <? Str.len b) eqn:E; [done | lia].
  - apply Forall_cons in Hb as [Hx Hb].
    destruct (1 <? Str.len x) eqn:E; [lia | by apply IH].
Qed.

(** With the first line that is not empty behind the metadata block ending
    in a line feed, [ReadBodyN] returns that line cut to the budget, or the
    line and the bytes behind it up to the budget. *)
Lemma readBody_terminated_line (rel : string) (r r1 : bufio.Reader)
    (blanks : list string) (b : string) (more : list string) (maxBytes : Z) :
  0 <= maxBytes ->
  bufio.stop r = EOF ->
  skipMetadata rel (false, false, false) (bufio.pending r) (bufio.rest r) (bufio.stop r) = Ok r1 ->
  bufio.pending r1 = blanks ++ b :: more ->
  Forall (fun l => Str.len l <= 1) blanks -> 1 < Str.len b ->
  exists s,
    readBody rel r maxBytes = Some (Ok s)
    /\ Str.len s <= maxBytes
    /\ s = if maxBytes <? Str.len b then Str.take (Z.to_nat maxBytes) b
           else b +:+ Str.take (Z.to_nat (maxBytes - Str.len b))
                               (bufio.unread (bufio.mkReader more (bufio.rest r1) EOF)).
Proof.
  intros Hm He Hs Hp Hb Hl.
  pose proof (readBody_after_metadata rel r r1 maxBytes Hm Hs) as Hr.
  rewrite Hp, (skipEmpty_kept _ _ _ _ _ Hb Hl) in Hr.
  rewrite (skipMetadata_stop _ _ _ _ _ _ Hs), He in Hr. rewrite Hr.
  set (u := bufio.unread (bufio.mkReader more (bufio.rest r1) EOF)).
  destruct (maxBytes <? Str.len b) eqn:E1.
  - eexists. split; [done |]. split; [| done].
    pose proof (take_length_le (Z.to_nat maxBytes) b). unfold Str.len. lia.
  - destruct (maxBytes - Str.len b <=? Str.len u) eqn:E2.
    + eexists. split; [done |]. split; [| done].
      pose proof (take_length_le (Z.to_nat (maxBytes - Str.len b)) u).
      unfold Str.len in *. rewrite app_length. lia.
    + rewrite decide_True by done. eexists. split; [done |].
      rewrite take_all by (unfold Str.len in *; lia). split; [| done].
      unfold Str.len in *. rewrite app_length. lia.
Qed.

(** C8 fails on the code: a first line behind the metadata block that the
    file ends without a line feed is read by the loop over empty lines
    together with the end of the file, and dropped; nothing of the body is
    returned. *)
Theorem C8_unterminated_line_dropped :
  readBody "blog/p.md" (bufio.NewReader (mkStream "T
=
- Category: blog
- Tags: 
- Created: 2018-11-03T09:05:00Z

body" None)) 100 = Some (Ok "")
  /\ readBody "blog/p.md" (bufio.NewReader (mkStream "T
=
- Category: blog
- Tags: 
- Created: 2018-11-03T09:05:00Z

body
" None)) 100 = Some (Ok "body
").
Proof. split; by vm_compute. Qed.

(** ** The last element of a path *)

Lemma take_drop (n : nat) (s : string) : Str.take n s +:+ Str.drop n s = s.
Proof.
  revert s; induction n as [|n IH]; intros [|c s]; simpl; try done.
  rewrite app_cons. f_equal. apply IH.
Qed.

Lemma HasSuffix_iff (s suf : string) :
  strings.HasSuffix s suf = true <-> exists x, s = x +:+ suf.
Proof.
  unfold strings.HasSuffix. rewrite andb_true_iff, bool_decide_eq_true, Nat.leb_le. split.
  - intros [Hl Hd]. exists (Str.take (String.length s - String.length suf) s).
    etrans; [symmetry; apply (take_drop (String.length s - String.length suf)) |].
    by rewrite Hd.
  - intros [x ->]. rewrite app_length. split; [lia |].
    replace (String.length x + String.length suf - String.length suf)%nat
      with (String.length x) by lia.
    apply drop_app_length.
Qed.

Lemma pathSplit_nosep (t : string) :
  Str.mem "/"%char t = false -> filepath.Split t = ("", t).
Proof.
  induction t as [|c t IH]; [done |]. simpl.
  destruct (decide (c = "/"%char)) as [->|Hc]; [done |]. intros H.
  rewrite IH by done. rewrite decide_True by done.
  unfold filepath.isSeparator. by rewrite bool_decide_eq_false_2.
Qed.

Lemma pathSplit_app_nosep (x t : string) :
  Str.mem "/"%char t = false ->
  filepath.Split (x +:+ t) = ((filepath.Split x).1, (filepath.Split x).2 +:+ t).
Proof.
  intros Ht. induction x as [|c x IH]; sapp; [by apply pathSplit_nosep |].
  rewrite IH. destruct (filepath.Split x) as [d f]. simpl.
  destruct (decide (d = "")); [| done].
  by destruct (filepath.isSeparator c).
Qed.

Lemma pathSplit_slash (x : string) :
  filepath.Split (x +:+ "/") = (x +:+ "/", "").
Proof.
  induction x as [|c x IH]; sapp; [done |].
  rewrite IH. rewrite decide_False; [done |]. by destruct x.
Qed.

Lemma all_app (p : ascii -> bool) (a b : string) :
  Str.all p (a +:+ b) = Str.all p a && Str.all p b.
Proof. induction a as [|c a IH]; sapp; [done |]. by rewrite IH, andb_assoc. Qed.

Lemma trimRightBy_app_keep (p : ascii -> bool) (x t : string) :
  t <> "" -> Str.trimRightBy p t = t -> Str.trimRightBy p (x +:+ t) = x +:+ t.
Proof.
  intros Hn Ht. induction x as [|c x IH]; sapp; [done |].
  assert (Str.all p t = false) as A.
  { destruct (Str.all p t) eqn:E; [| done].
    apply trimRightBy_nil_iff in E. congruence. }
  change (match Str.trimRightBy p (x +:+ t) with
          | "" => if p c then "" else String c ""
          | String a s => String c (String a s)
          end) with (Str.trimRightBy p (String c (x +:+ t))).
  rewrite trimRightBy_cons, all_app, A, andb_false_r, andb_false_r. by rewrite IH.
Qed.

Lemma trimRightBy_nosep (t : string) :
  Str.mem "/"%char t = false -> Str.trimRightBy filepath.isSeparator t = t.
Proof.
  induction t as [|c t IH]; [done |]. intros H. rewrite trimRightBy_cons.
  simpl in H. destruct (decide (c = "/"%char)); [done |].
  unfold filepath.isSeparator at 1. rewrite bool_decide_eq_false_2 by done.
  simpl. by rewrite IH.
Qed.

(** The base name of a path that ends in an element without separators. *)
Lemma Base_app (y t : string) :
  (y = "" \/ exists y', y = y' +:+ "/") ->
  t <> "" -> Str.mem "/"%char t = false ->
  filepath.Base (y +:+ t) = t.
Proof.
  intros Hy Hn Ht. unfold filepath.Base.
  rewrite decide_False by (destruct y, t; done).
  rewrite trimRightBy_app_keep by (done || by apply trimRightBy_nosep).
  rewrite pathSplit_app_nosep by done. simpl.
  destruct Hy as [-> | [y' ->]].
  - simpl. rewrite decide_False by done. done.
  - rewrite pathSplit_slash. simpl. by rewrite decide_False.
Qed.

Lemma HasSuffix_Base (s : string) :
  strings.HasSuffix s ".md" = true -> strings.HasSuffix (filepath.Base s) ".md" = true.
Proof.
  intros [x ->]%HasSuffix_iff. apply HasSuffix_iff.
  unfold filepath.Base. rewrite decide_False by (by destruct x).
  rewrite trimRightBy_app_keep by done.
  rewrite pathSplit_app_nosep by done. simpl.
  rewrite decide_False by (by destruct (filepath.Split x).2). eauto.
Qed.

Lemma cleanStep_normal (rooted : bool) (st : list string) (e : string) :
  normalElem e -> filepath.cleanStep rooted st e = e :: st.
Proof.
  intros (H1 & H2 & H3 & _). unfold filepath.cleanStep.
  by rewrite !bool_decide_eq_false_2.
Qed.

Lemma cleaned_cons (rooted : bool) (st : list string) (e : string) :
  cleaned rooted st -> normalElem e -> cleaned rooted (e :: st).
Proof.
  intros H He. rewrite <- (cleanStep_normal rooted st e He).
  apply cleanStep_cleaned; [done | by destruct He as (_ & _ & _ & ?)].
Qed.

Lemma normal_not_rooted (e : string) : normalElem e -> strings.HasPrefix e "/" = false.
Proof.
  intros (H1 & _ & _ & H4). destruct e as [|c e]; [done |].
  rewrite HasPrefix_head. simpl in H4.
  destruct (decide (c = "/"%char)); [done |]. by rewrite bool_decide_eq_false_2.
Qed.

Lemma Clean_assemble_snoc (rooted : bool) (st : list string) (e : string) :
  cleaned rooted st -> normalElem e ->
  filepath.Clean (assemble rooted st +:+ "/" +:+ e) = assemble rooted (e :: st).
Proof.
  intros Hc He. pose proof (assemble_not_nil rooted st) as Hn.
  rewrite Clean_eq by (by destruct (assemble rooted st)).
  rewrite HasPrefix_app_l, assemble_rooted by done.
  change ("/" +:+ e) with (String "/"%char e).
  rewrite Split_app, fold_left_app, fold_Split_assemble by done.
  rewrite Split_nosep by (by destruct He as (_ & _ & _ & ?)).
  simpl. by rewrite cleanStep_normal.
Qed.

Lemma Clean_assemble_slash (rooted : bool) (st : list string) :
  cleaned rooted st ->
  filepath.Clean (assemble rooted st +:+ "/") = assemble rooted st.
Proof.
  intros Hc. pose proof (assemble_not_nil rooted st) as Hn.
  rewrite Clean_eq by (by destruct (assemble rooted st)).
  rewrite HasPrefix_app_l, assemble_rooted by done.
  rewrite Split_app, fold_left_app, fold_Split_assemble by done.
  done.
Qed.

Lemma cleaned_Join_not_nil (rooted : bool) (st : list string) :
  cleaned rooted st -> st <> [] -> strings.Join (rev st) "/" <> "".
Proof.
  intros Hc Hn. apply cleaned_elems in Hc. apply Forall_rev in Hc.
  destruct (rev st) as [|x l] eqn:R.
  - apply (f_equal (@rev string)) in R. rewrite rev_involutive in R. done.
  - apply Forall_cons in Hc as [[Hx _] _]. destruct x as [|c x]; [done |].
    destruct (Join_head l "/" c x) as [r ->]. done.
Qed.

Lemma assemble_cons (rooted : bool) (st : list string) (e : string) :
  cleaned rooted st -> st <> [] ->
  assemble rooted (e :: st) = assemble rooted st +:+ "/" +:+ e.
Proof.
  intros Hc Hn. pose proof (cleaned_Join_not_nil _ _ Hc Hn) as J.
  unfold assemble. simpl rev.
  assert (rev st <> []) as R.
  { intros E. apply (f_equal (@rev string)) in E. rewrite rev_involutive in E. done. }
  rewrite Join_snoc by done.
  destruct rooted; [by rewrite !app_assoc |].
  rewrite (decide_False (P := strings.Join (rev st) "/" = "")) by done.
  rewrite decide_False; [done |].
  by destruct (strings.Join (rev st) "/").
Qed.

(** A path that [Clean] ends with an ordinary element ends with that
    element, behind a separator if anything stands before it. *)
Lemma assemble_last (rooted : bool) (st : list string) (e : string) :
  cleaned rooted st -> normalElem e ->
  exists y, assemble rooted (e :: st) = y +:+ e /\ (y = "" \/ exists y', y = y' +:+ "/").
Proof.
  intros Hc He. destruct st as [|x st].
  - unfold assemble. simpl. destruct rooted.
    + exists "/". split; [done |]. right. by exists "".
    + exists "". split; [| by left]. rewrite decide_False; [done |]. by destruct He.
  - rewrite assemble_cons by done.
    exists (assemble rooted (x :: st) +:+ "/"). split; [by rewrite app_assoc |].
    right. eauto.
Qed.

Lemma Join2_assemble (home e : string) :
  normalElem e ->
  exists rooted st, cleaned rooted st /\ filepath.Join [home; e] = assemble rooted (e :: st).
Proof.
  intros He. pose proof He as (H1 & _ & _ & H4).
  destruct (decide (home = "")) as [->|Hh].
  - exists false, []. split; [apply cleaned_nil |].
    cbn [filepath.Join]. rewrite decide_True by done. rewrite decide_False by done.
    cbn [strings.Join]. rewrite Clean_eq by done.
    rewrite normal_not_rooted by done. rewrite Split_nosep by done.
    simpl. by rewrite cleanStep_normal.
  - exists (strings.HasPrefix home "/"),
           (fold_left (filepath.cleanStep (strings.HasPrefix home "/"))
                      (strings.Split home "/"%char) []).
    split; [apply fold_cleaned; [apply Split_no_sep | apply cleaned_nil] |].
    cbn [filepath.Join]. rewrite decide_False by done. cbn [strings.Join].
    rewrite Clean_eq by (by destruct home).
    rewrite HasPrefix_app_l by done.
    change ("/" +:+ e) with (String "/"%char e).
    rewrite Split_app, fold_left_app, Split_nosep by done.
    simpl. by rewrite cleanStep_normal.
Qed.

(** The base name of a path joined with an ordinary element is that
    element. *)
Lemma Base_Join (path e : string) :
  normalElem e -> filepath.Base (filepath.Join [path; e]) = e.
Proof.
  intros He. destruct (Join2_assemble path e He) as (r & st & Hc & ->).
  destruct (assemble_last r st e Hc He) as (y & -> & Hy).
  destruct He as (? & _ & _ & ?). by apply Base_app.
Qed.

(** ** [WalkNotes] *)

Local Arguments filepath.Join : simpl never.

Section NodeInduction.

Variable P : node -> Prop.
Hypothesis P_regular : forall opened, P (Regular opened).
Hypothesis P_unreachable : forall e, P (Unreachable e).
Hypothesis P_unread : forall e, P (Directory (Err e)).
Hypothesis P_directory :
  forall entries, Forall (fun x => P x.2) entries -> P (Directory (Ok entries)).

Fixpoint node_nested_ind (n : node) : P n :=
  match n with
  | Regular opened => P_regular opened
  | Unreachable e => P_unreachable e
  | Directory (Err e) => P_unread e
  | Directory (Ok entries) =>
      P_directory entries
        ((fix all (l : list (string * node)) : Forall (fun x => P x.2) l :=
            match l with
            | [] => @List.Forall_nil _ (fun x => P x.2)
            | x :: l' =>
                @List.Forall_cons _ (fun x => P x.2) x l' (node_nested_ind x.2) (all l')
            end) entries)
  end.

End NodeInduction.

Section WalkFacts.

Variable canonPath : string -> string.
Variable cfg : Config.
Variable pred : list (string * Note) -> string -> Note -> option error.

(** What the walk may hand to the visitor at [p]: a file of the tree whose
    name ends in [.md], below no directory named [.git], and the note loaded
    from it. *)
Definition visitable (path name : string) (n : node) (p : string) (note : Note) : Prop :=
  exists dirs fname opened,
    located path name n dirs p fname opened
    /\ (".git" ∉ dirs)
    /\ strings.HasSuffix fname ".md" = true
    /\ strings.HasSuffix p ".md" = true
    /\ LoadNote canonPath (fun _ => opened) p cfg = Ok note.

Lemma walk_directory (log : list (string * Note)) (path name : string)
    (entries : list (string * node)) :
  walk canonPath cfg pred log path name (Directory (Ok entries)) =
  if decide (name = ".git") then (log, Some SkipDir)
  else walkNames canonPath cfg pred path log entries.
Proof.
  simpl. unfold walkFn. simpl.
  destruct (decide (name = ".git")); [done |].
  revert log; induction entries as [|[nm child] entries IH]; intros log; [done |].
  simpl. destruct (walk canonPath cfg pred log (filepath.Join [path; nm]) nm child) as [log2 err].
  destruct child, err; try done; by destruct (decide _).
Qed.

Lemma visitable_below (path name : string) (entries : list (string * node))
    (nm : string) (child : node) (p : string) (note : Note) :
  name <> ".git" -> (nm, child) ∈ entries ->
  visitable (filepath.Join [path; nm]) nm child p note ->
  visitable path name (Directory (Ok entries)) p note.
Proof.
  intros Hg Hin (dirs & fname & opened & Hloc & Hd & Hs & Hload).
  exists (dirs ++ [name]), fname, opened.
  split; [by econstructor |]. split; [| done].
  intros [Hi|Hi]%elem_of_app; [done |]. by apply list_elem_of_singleton in Hi.
Qed.

Lemma walk_visits (n : node) :
  forall (log : list (string * Note)) (path name : string)
         (log' : list (string * Note)) (err : option error),
    listed n -> name = filepath.Base path ->
    walk canonPath cfg pred log path name n = (log', err) ->
    exists new, log' = log ++ new
                /\ forall p note, (p, note) ∈ new -> visitable path name n p note.
Proof.
  induction n as [opened | e | e | entries IH] using node_nested_ind;
    intros log path name log' err Hl Hn Hw.
  - (* a regular file *)
    simpl in Hw. unfold walkFn in Hw. simpl in Hw.
    destruct (strings.HasSuffix path ".md") eqn:Hs; simpl in Hw.
    + destruct (LoadNote canonPath (fun _ => opened) path cfg) as [note|e] eqn:Hload.
      * injection Hw as <- <-. exists [(path, note)]. split; [done |].
        intros p note' [= -> ->]%list_elem_of_singleton.
        exists [], name, opened.
        split; [constructor |]. split; [by intros ?%elem_of_nil |].
        split; [subst name; by apply HasSuffix_Base | done].
      * injection Hw as <- <-. exists []. split; [by rewrite List.app_nil_r | set_solver].
    + injection Hw as <- <-. exists []. split; [by rewrite List.app_nil_r | set_solver].
  - simpl in Hw. injection Hw as <- <-.
    exists []. split; [by rewrite List.app_nil_r | set_solver].
  - simpl in Hw. injection Hw as <- <-.
    exists []. split; [by rewrite List.app_nil_r | set_solver].
  - (* a directory *)
    rewrite walk_directory in Hw.
    destruct (decide (name = ".git")) as [Hg|Hg].
    { injection Hw as <- <-. exists []. split; [by rewrite List.app_nil_r | set_solver]. }
    assert (Forall (fun x => normalElem x.1 /\ listed x.2) entries) as Hall
      by (by inversion Hl).
    assert (forall ents log log' err,
              ents ⊆ entries ->
              walkNames canonPath cfg pred path log ents = (log', err) ->
              exists new, log' = log ++ new /\
                forall p note, (p, note) ∈ new ->
                  visitable path name (Directory (Ok entries)) p note) as Hloop;
      [| by apply (Hloop entries log log' err)].
    clear Hw log log' err.
    induction ents as [|[nm child] ents IHe]; intros log log' err Hsub Hw.
    { injection Hw as <- <-. exists []. split; [by rewrite List.app_nil_r | set_solver]. }
    assert ((nm, child) ∈ entries) as Hin by (apply Hsub; constructor).
    rewrite Forall_forall in IH, Hall.
    destruct (Hall _ Hin) as [Hnm Hlc]. simpl in Hnm, Hlc.
    simpl in Hw.
    destruct (walk canonPath cfg pred log (filepath.Join [path; nm]) nm child)
      as [log2 err2] eqn:Hchild.
    destruct (IH _ Hin _ _ _ _ _ Hlc (eq_sym (Base_Join path nm Hnm)) Hchild)
      as (new1 & -> & Hnew1).
    assert (forall log' err,
              walkNames canonPath cfg pred path (log ++ new1) ents = (log', err) ->
              exists new, log' = log ++ new /\
                forall p note, (p, note) ∈ new ->
                  visitable path name (Directory (Ok entries)) p note) as Hrest.
    { intros log'' err'' Hw''.
      destruct (IHe (log ++ new1) log'' err'') as (new2 & -> & Hnew2);
        [intros x Hx; apply Hsub; by constructor | done |].
      exists (new1 ++ new2). split; [by rewrite List.app_assoc |].
      intros p note [Hi|Hi]%elem_of_app; [| by apply Hnew2].
      eapply visitable_below; [done | exact Hin | by apply Hnew1]. }
    assert (exists new, log ++ new1 = log ++ new /\
              forall p note, (p, note) ∈ new ->
                visitable path name (Directory (Ok entries)) p note) as Hstop.
    { exists new1. split; [done |]. intros p note Hi.
      eapply visitable_below; [done | exact Hin | by apply Hnew1]. }
    destruct child; destruct err2 as [e2|]; try (by eapply Hrest);
      try (destruct (decide (e2 = SkipDir)); [by eapply Hrest |]);
      injection Hw as <- <-; exact Hstop.
Qed.

End WalkFacts.

(** C9: whatever lies at the walked path, the visitor is called only on
    files of that tree whose name ends in [.md] and that lie below no
    directory named [.git]; a directory of that name is entered for none of
    its entries. *)
Theorem C9_walk_visits :
  forall (canonPath : string -> string) (cfg : Config)
         (pred : list (string * Note) -> string -> Note -> option error)
         (root : string) (tree : node),
    listed tree ->
    (forall (p : string) (note : Note),
        (p, note) ∈ (WalkNotes canonPath cfg pred root tree).1 ->
        exists dirs fname opened,
          located root (filepath.Base root) tree dirs p fname opened
          /\ (".git" ∉ dirs)
          /\ strings.HasSuffix fname ".md" = true
          /\ strings.HasSuffix p ".md" = true
          /\ LoadNote canonPath (fun _ => opened) p cfg = Ok note)
    /\ (forall (log : list (string * Note)) (path : string) (entries : list (string * node)),
          walk canonPath cfg pred log path ".git" (Directory (Ok entries))
          = (log, Some SkipDir)).
Proof.
  intros cp cfg pred root tree Hl. split.
  - intros p note Hin. unfold WalkNotes, Walk in Hin.
    destruct (walk cp cfg pred [] root (filepath.Base root) tree) as [log err] eqn:Hw.
    simpl in Hin.
    destruct (walk_visits cp cfg pred tree [] root _ log err Hl eq_refl Hw)
      as (new & -> & Hnew).
    exact (Hnew p note Hin).
  - intros log path entries. by rewrite walk_directory.
Qed.

Lemma C9_walk_visits_witness :
  let note := mkStream "T
=
- Category: blog
- Tags: a
- Created: 2018-11-03T09:05:00Z
" None in
  let tree :=
    Directory (Ok [ (".git", Directory (Ok [("x.md", Regular (Ok note))]));
                    ("README", Regular (Ok note));
                    ("blog", Directory (Ok [("p.md", Regular (Ok note))])) ]) in
  (WalkNotes id (mkConfig "/n" "") (fun _ _ _ => None) "/n" tree).1
  = [("/n/blog/p.md",
      mkNote (mkConfig "/n" "") "blog" (Some ["a"]) (time.mkTime 2018 11 3 9 5 0 0 0) "p.md" "T")]
  /\ exists dirs fname opened,
       located "/n" "n" tree dirs "/n/blog/p.md" fname opened
       /\ (".git" ∉ dirs) /\ strings.HasSuffix fname ".md" = true.
Proof.
  intros note tree.
  assert ((WalkNotes id (mkConfig "/n" "") (fun _ _ _ => None) "/n" tree).1
          = [("/n/blog/p.md",
              mkNote (mkConfig "/n" "") "blog" (Some ["a"]) (time.mkTime 2018 11 3 9 5 0 0 0)
                     "p.md" "T")]) as E by (by vm_compute).
  split; [exact E |].
  assert (listed tree) as Hl.
  { repeat (constructor; simpl); repeat split; done. }
  destruct (proj1 (C9_walk_visits id (mkConfig "/n" "") (fun _ _ _ => None) "/n" tree Hl)
              "/n/blog/p.md"
              (mkNote (mkConfig "/n" "") "blog" (Some ["a"]) (time.mkTime 2018 11 3 9 5 0 0 0)
                      "p.md" "T"))
    as (dirs & fname & opened & H1 & H2 & H3 & _).
  - rewrite E. constructor.
  - exists dirs, fname, opened. done.
Defined.

(** ** Timestamps *)

Lemma digitVal_digit (d : Z) : 0 <= d < 10 -> time.digitVal (time.digit d) = Some d.
Proof.
  intros H.
  assert (d = 0 \/ d = 1 \/ d = 2 \/ d = 3 \/ d = 4 \/ d = 5 \/ d = 6 \/ d = 7 \/ d = 8 \/ d = 9)
    as E by lia.
  repeat (destruct E as [-> | E]; [reflexivity |]). by subst.
Qed.

Lemma readDigits_app (a b : nat) (acc : Z) (s : string) :
  time.readDigits (a + b) acc s =
  match time.readDigits a acc s with
  | Some (v, s') => time.readDigits b v s'
  | None => None
  end.
Proof.
  revert acc s; induction a as [|a IH]; intros acc s; [done |].
  simpl. destruct s as [|c s]; [done |].
  destruct (time.digitVal c); [apply IH | done].
Qed.

Lemma readDigits_fixed (w : nat) (acc x : Z) (rest : string) :
  0 <= x < 10 ^ Z.of_nat w ->
  time.readDigits w acc (time.fixedDigits w x +:+ rest)
  = Some (acc * 10 ^ Z.of_nat w + x, rest).
Proof.
  revert acc x rest; induction w as [|w IH]; intros acc x rest Hx.
  - cbn [time.fixedDigits time.readDigits]. rewrite app_nil_l.
    f_equal. f_equal. change (10 ^ Z.of_nat 0) with 1 in *. lia.
  - rewrite Nat2Z.inj_succ, Z.pow_succ_r in * by lia.
    replace (S w) with (w + 1)%nat at 1 by lia.
    rewrite readDigits_app. cbn [time.fixedDigits]. rewrite app_assoc.
    rewrite IH by (split; [apply Z.div_pos; lia | apply Z.div_lt_upper_bound; lia]).
    rewrite app_cons, app_nil_l. cbn [time.readDigits].
    rewrite digitVal_digit by (apply Z.mod_pos_bound; lia).
    f_equal. f_equal. pose proof (Z.div_mod x 10). lia.
Qed.

Lemma ndigits_le (k fuel : nat) (u : Z) :
  u < 10 ^ Z.of_nat k -> (time.ndigits fuel u <= k)%nat.
Proof.
  revert k u; induction fuel as [|fuel IH]; intros k u Hu; simpl; [lia |].
  destruct (u <=? 0) eqn:E; [lia |].
  destruct k as [|k]; [simpl in Hu; lia |].
  rewrite Nat2Z.inj_succ, Z.pow_succ_r in Hu by lia.
  specialize (IH k (u / 10)).
  assert (u / 10 < 10 ^ Z.of_nat k) by (apply Z.div_lt_upper_bound; lia).
  lia.
Qed.

Lemma appendInt_fixed (x : Z) (w : nat) :
  0 <= x < 10 ^ Z.of_nat w -> time.appendInt x w = time.fixedDigits w x.
Proof.
  intros Hx. unfold time.appendInt.
  destruct (x <? 0) eqn:E; [lia |]. rewrite Z.abs_eq by lia. rewrite app_nil_l.
  pose proof (ndigits_le w (S (Z.to_nat (Z.log2 x))) x ltac:(lia)).
  by rewrite Nat.max_l by lia.
Qed.

Lemma readDigits_appendInt (w : nat) (x : Z) (rest : string) :
  0 <= x < 10 ^ Z.of_nat w ->
  time.readDigits w 0 (time.appendInt x w +:+ rest) = Some (x, rest).
Proof.
  intros Hx. rewrite appendInt_fixed, readDigits_fixed by done. f_equal.
Qed.

Lemma getnum_appendInt (x : Z) (rest : string) (fixed : bool) :
  0 <= x < 100 -> time.getnum (time.appendInt x 2 +:+ rest) fixed = Some (x, rest).
Proof.
  intros H. rewrite appendInt_fixed by (change (10 ^ Z.of_nat 2) with 100; lia).
  cbn [time.fixedDigits]. repeat (rewrite app_nil_l || rewrite app_cons).
  unfold time.getnum. cbv beta iota.
  rewrite digitVal_digit by (apply Z.mod_pos_bound; lia). cbv beta iota.
  rewrite digitVal_digit by (apply Z.mod_pos_bound; lia).
  f_equal. f_equal.
  pose proof (Z.div_mod x 10). rewrite (Z.mod_small (x / 10) 10); [lia |].
  split; [apply Z.div_pos; lia | apply Z.div_lt_upper_bound; lia].
Qed.

Lemma readDigits4 (x : Z) (rest : string) :
  0 <= x < 10000 -> time.readDigits 4 0 (time.appendInt x 4 +:+ rest) = Some (x, rest).
Proof. intros H. apply readDigits_appendInt. change (10 ^ Z.of_nat 4) with 10000. lia. Qed.

Lemma expect_head (c : ascii) (rest : string) :
  time.expect c (String c "" +:+ rest) = Some rest.
Proof. rewrite app_cons, app_nil_l. unfold time.expect. by rewrite decide_True. Qed.

Lemma parseZone_formatZone (off : Z) :
  Z.rem off 60 = 0 -> -86400 < off < 86400 ->
  time.parseZone (time.formatZone off) = Some off
  /\ time.parseFraction (time.formatZone off) = (0, time.formatZone off).
Proof.
  intros Hr Hb. unfold time.formatZone.
  destruct (off =? 0) eqn:E0; [by replace off with 0 by lia |].
  set (zone := Z.quot off 60).
  pose proof (Z.quot_rem' off 60) as Hq. fold zone in Hq.
  assert (0 <= Z.abs zone < 1440) as Ha by lia.
  set (hh := Z.quot (Z.abs zone) 60). set (mm := Z.rem (Z.abs zone) 60).
  assert (hh = Z.abs zone / 60) as Hhh by (apply Z.quot_div_nonneg; lia).
  assert (mm = Z.abs zone mod 60) as Hmm by (apply Z.rem_mod_nonneg; lia).
  assert (0 <= hh < 24 /\ 0 <= mm < 60 /\ Z.abs zone = hh * 60 + mm) as (H1 & H2 & H3).
  { rewrite Hhh, Hmm. pose proof (Z.div_mod (Z.abs zone) 60).
    pose proof (Z.mod_pos_bound (Z.abs zone) 60).
    assert (0 <= Z.abs zone / 60) by (apply Z.div_pos; lia).
    assert (Z.abs zone / 60 < 24) by (apply Z.div_lt_upper_bound; lia). lia. }
  clearbody hh mm.
  assert (forall c : ascii, c <> "Z"%char ->
            bool_decide (c = "+"%char) || bool_decide (c = "-"%char) = true ->
            time.parseZone (String c "" +:+ time.appendInt hh 2 +:+ ":" +:+ time.appendInt mm 2)
            = Some ((if decide (c = "-"%char) then -1 else 1) * ((hh * 60 + mm) * 60))) as P.
  { intros c Hc Hs.
    rewrite appendInt_fixed by (change (10 ^ Z.of_nat 2) with 100; lia).
    rewrite appendInt_fixed by (change (10 ^ Z.of_nat 2) with 100; lia).
    cbn [time.fixedDigits]. repeat (rewrite app_nil_l || rewrite app_cons).
    unfold time.parseZone.
    rewrite decide_False by done. rewrite decide_True by done.
    pose proof (getnum_appendInt hh "" true ltac:(lia)) as G1.
    pose proof (getnum_appendInt mm "" true ltac:(lia)) as G2.
    rewrite appendInt_fixed in G1, G2 by (change (10 ^ Z.of_nat 2) with 100; lia).
    cbn [time.fixedDigits] in G1, G2.
    repeat (rewrite app_nil_l in G1 || rewrite app_cons in G1).
    repeat (rewrite app_nil_l in G2 || rewrite app_cons in G2).
    rewrite G1. cbn [mbind option_bind]. rewrite G2. cbn [mbind option_bind].
    destruct (24 <? hh) eqn:E1; [lia |]. destruct (60 <? mm) eqn:E2; [lia |].
    cbn [orb]. rewrite Hs. cbn [negb]. by rewrite decide_True. }
  assert (forall (c : ascii) (s : string),
            c <> "."%char -> c <> ","%char ->
            time.parseFraction (String c s) = (0, String c s)) as F.
  { intros c s Hc1 Hc2. unfold time.parseFraction.
    destruct s as [|b s]; [done |].
    by rewrite !bool_decide_eq_false_2 by done. }
  destruct (zone <? 0) eqn:Ez.
  - split.
    + rewrite (P "-"%char) by done. rewrite decide_True by done. f_equal. lia.
    + rewrite app_cons. by apply F.
  - split.
    + rewrite (P "+"%char) by done. rewrite decide_False by done. f_equal. lia.
    + rewrite app_cons. by apply F.
Qed.

(** Parsing what [Format] prints gives the time back, at whole seconds. *)
Lemma Parse_Format (t : time.Time) :
  printable t -> time.Parse (time.Format t) = Some (atSecond t).
Proof.
  intros (Hv & Hy & Hr & Hb).
  destruct (parseZone_formatZone _ Hr Hb) as [Hz Hf].
  pose proof Hv as Hv'. unfold time.valid in Hv'.
  repeat (apply andb_true_iff in Hv' as [Hv' ?]).
  assert (time.daysIn (time.month t) (time.year t) <= 31)
    by (unfold time.daysIn; repeat case_match; lia).
  unfold time.Format, time.Parse.
  rewrite readDigits4 by lia. cbn [mbind option_bind].
  rewrite expect_head. cbn [mbind option_bind].
  rewrite getnum_appendInt by lia. cbn [mbind option_bind].
  rewrite expect_head. cbn [mbind option_bind].
  rewrite getnum_appendInt by lia. cbn [mbind option_bind].
  rewrite expect_head. cbn [mbind option_bind].
  rewrite getnum_appendInt by lia. cbn [mbind option_bind].
  rewrite expect_head. cbn [mbind option_bind].
  rewrite getnum_appendInt by lia. cbn [mbind option_bind].
  rewrite expect_head. cbn [mbind option_bind].
  rewrite getnum_appendInt by lia. cbn [mbind option_bind].
  rewrite Hf, Hz. cbn [mbind option_bind].
  assert (time.valid (time.mkTime (time.year t) (time.month t) (time.day t) (time.hour t)
                        (time.minute t) (time.second t) 0 (time.offset t)) = true) as ->.
  { unfold time.valid in *. cbn [time.year time.month time.day time.hour time.minute
                                 time.second time.nsec time.offset].
    repeat (apply andb_true_iff; split); try done; lia. }
  done.
Qed.

(** ** Trimmed text *)

Lemma spaceRune_suffix (s r : string) :
  strings.spaceRune s = Some r -> exists e, s = e +:+ r.
Proof.
  unfold strings.spaceRune.
  destruct s as [|c1 [|c2 [|c3 s]]]; simpl; try done.
  - destruct (strings.asciiSpace c1); [|done]. intros [= <-]. by exists (String c1 "").
  - destruct (strings.asciiSpace c1); [intros [= <-]; by exists (String c1 "") |].
    destruct (strings.space2 c1 c2); [|done]. intros [= <-].
    by exists (String c1 (String c2 "")).
  - destruct (strings.asciiSpace c1); [intros [= <-]; by exists (String c1 "") |].
    destruct (strings.space2 c1 c2); [intros [= <-]; by exists (String c1 (String c2 "")) |].
    destruct (strings.space3 c1 c2 c3); [|done]. intros [= <-].
    by exists (String c1 (String c2 (String c3 ""))).
Qed.

(** [strings.TrimLeft] cuts off a prefix. *)
Lemma TrimLeft_split (s : string) : exists p, s = p +:+ strings.TrimLeft s.
Proof.
  remember (String.length s) as n eqn:Hn. revert s Hn.
  induction (lt_wf n) as [n _ IH]. intros s ->.
  rewrite TrimLeft_unfold.
  destruct (strings.spaceRune s) as [r|] eqn:E; [| by exists ""].
  destruct (spaceRune_suffix _ _ E) as [e ->].
  destruct (IH (String.length r) (headRune_length _ _ _ _ _ E) r eq_refl) as [p Hp].
  exists (e +:+ p). by rewrite app_assoc, <- Hp.
Qed.

(** Trimming brings in no byte. *)
Lemma mem_TrimSpace (c : ascii) (s : string) :
  Str.mem c s = false -> Str.mem c (strings.TrimSpace s) = false.
Proof.
  intros H. unfold strings.TrimSpace.
  destruct (TrimLeft_split s) as [p Hp].
  destruct (TrimRight_split (strings.TrimLeft s)) as (q & Hq & _).
  rewrite Hp, Hq, !mem_app in H.
  apply orb_false_iff in H as [_ H]. by apply orb_false_iff in H as [H _].
Qed.

Lemma TrimSpace_TrimRight_fix (s : string) :
  strings.TrimSpace s = s -> strings.TrimRight s = s.
Proof.
  intros H. rewrite <- H at 1. unfold strings.TrimSpace.
  rewrite TrimRight_idem. exact H.
Qed.

(** A trimmed text does not end in white space below [utf8.RuneSelf]. *)
Lemma trimmed_last (s : string) (c : ascii) :
  strings.TrimSpace s = s -> Str.last s = Some c -> strings.asciiSpace c = false.
Proof.
  intros Ht. apply TrimSpace_TrimRight_fix in Ht.
  induction s as [|a s IH]; [done |].
  rewrite TrimRight_cons in Ht.
  destruct (strings.blank (String a s)) eqn:B; [done |].
  injection Ht as Ht. simpl. destruct s as [|b s].
  - intros [= <-]. destruct (strings.asciiSpace a) eqn:A; [| done].
    unfold strings.blank in B. rewrite TrimLeft_unfold in B.
    unfold strings.spaceRune in B. simpl in B. rewrite A in B. by vm_compute in B.
  - by apply IH.
Qed.

Lemma plain_TrimLeft (c : ascii) (s : string) :
  plainByte c = true -> strings.TrimLeft (String c s) = String c s.
Proof.
  intros H. rewrite TrimLeft_unfold. unfold strings.spaceRune. simpl.
  assert (strings.asciiSpace c = false) as ->.
  { unfold plainByte in H. bytes. }
  destruct s as [|c2 s]; [done |].
  assert (strings.space2 c c2 = false) as ->.
  { unfold plainByte in H. bytes. }
  destruct s as [|c3 s]; [done |].
  assert (strings.space3 c c2 c3 = false) as ->; [| done].
  unfold plainByte in H. bytes.
Qed.

(** Text of printable ASCII without spaces is trimmed. *)
Lemma plain_TrimSpace (s : string) :
  Str.all plainByte s = true -> strings.TrimSpace s = s.
Proof.
  intros H. unfold strings.TrimSpace.
  assert (strings.TrimLeft s = s) as ->.
  { destruct s as [|c s]; [done |]. simpl in H.
    apply andb_true_iff in H as [H _]. by apply plain_TrimLeft. }
  induction s as [|c s IH]; [done |].
  simpl in H. apply andb_true_iff in H as [Hc H].
  rewrite TrimRight_cons, IH by done.
  unfold strings.blank. by rewrite plain_TrimLeft.
Qed.

Lemma plain_mem (s : string) (c : ascii) :
  plainByte c = false -> Str.all plainByte s = true -> Str.mem c s = false.
Proof.
  intros Hc. induction s as [|a s IH]; [done |]. simpl.
  intros [Ha H]%andb_true_iff. destruct (decide (a = c)) as [->|]; [| by apply IH].
  by rewrite Hc in Ha.
Qed.

Lemma plain_last (s : string) (c : ascii) :
  Str.all plainByte s = true -> Str.last s = Some c -> plainByte c = true.
Proof.
  induction s as [|a s IH]; [done |]. simpl.
  intros [Ha H]%andb_true_iff. destruct s as [|b s].
  - by intros [= <-].
  - by apply IH.
Qed.
(** ** Tags written and read back *)

Lemma Split_mem (c sep : ascii) (s : string) :
  Str.mem c s = false -> Forall (fun p => Str.mem c p = false) (strings.Split s sep).
Proof.
  induction s as [|a s IH]; simpl; [by repeat constructor |].
  destruct (decide (a = c)); [done |]. intros H. specialize (IH H).
  destruct (decide (a = sep)); [by constructor |].
  destruct (strings.Split s sep) as [|h t]; [repeat constructor; simpl; by rewrite decide_False |].
  apply Forall_cons in IH as [Hh Ht]. constructor; [| done].
  simpl. by rewrite decide_False.
Qed.

(** What [NewNote] and [LoadNote] store are tags. *)
Lemma parseTags_ok (raw : string) : Forall tagOK (parseTags raw).
Proof.
  unfold parseTags.
  pose proof (Split_no_sep raw ","%char) as H.
  induction (strings.Split raw ","%char) as [|p ps IH]; [constructor |].
  apply Forall_cons in H as [Hp H]. rewrite fmap_cons, filter_cons.
  destruct (decide (strings.TrimSpace p <> "")); [| by apply IH].
  constructor; [| by apply IH].
  split; [done |]. split; [apply TrimSpace_idem | by apply mem_TrimSpace].
Qed.

Lemma parseTags_mem (c : ascii) (raw : string) :
  Str.mem c raw = false -> Forall (fun t => Str.mem c t = false) (parseTags raw).
Proof.
  intros H. unfold parseTags.
  pose proof (Split_mem c ","%char raw H) as F.
  induction (strings.Split raw ","%char) as [|p ps IH]; [constructor |].
  apply Forall_cons in F as [Hp F]. rewrite fmap_cons, filter_cons.
  destruct (decide (strings.TrimSpace p <> "")); [| by apply IH].
  constructor; [by apply mem_TrimSpace | by apply IH].
Qed.

Lemma Join_mem (c : ascii) (ts : list string) (sep : string) :
  Str.mem c sep = false -> Forall (fun t => Str.mem c t = false) ts ->
  Str.mem c (strings.Join ts sep) = false.
Proof.
  intros Hs. induction ts as [|t ts IH]; [done |]. intros [Ht H]%Forall_cons.
  destruct ts as [|u ts]; [done |].
  rewrite Join_cons by done. rewrite !mem_app, Ht, Hs. by rewrite IH.
Qed.

Lemma parseTags_single (t : string) : tagOK t -> parseTags (" " +:+ t) = [t].
Proof.
  intros (Hn & Ht & Hc). unfold parseTags.
  rewrite Split_nosep by (rewrite mem_app, Hc; done).
  cbn [fmap list_fmap]. rewrite filter_cons.
  assert (strings.TrimSpace (" " +:+ t) = t) as ->.
  { rewrite <- TrimSpace_TrimLeft. rewrite app_cons, app_nil_l.
    rewrite (TrimLeft_unfold (String " " t)). unfold strings.spaceRune. simpl.
    by rewrite TrimSpace_TrimLeft. }
  by rewrite decide_True.
Qed.

(** The tags line of [Create] reads back as the tags it was made of. *)
Lemma parseTags_Join (ts : list string) :
  Forall tagOK ts -> parseTags (" " +:+ strings.Join ts ", ") = ts.
Proof.
  induction ts as [|t ts IH]; [done |]. intros [Ht H]%Forall_cons.
  destruct ts as [|u ts]; [by apply parseTags_single |].
  rewrite Join_cons by done.
  specialize (IH H). pose proof (parseTags_single t Ht) as S.
  unfold parseTags in *.
  change (", " +:+ strings.Join (u :: ts) ", ")
    with (String ","%char (" " +:+ strings.Join (u :: ts) ", ")).
  rewrite <- app_assoc, Split_app, fmap_app, filter_app.
  by rewrite S, IH.
Qed.

Lemma Join_last (ts : list string) (t : string) (sep : string) :
  t <> "" -> Str.last (strings.Join (ts ++ [t]) sep) = Str.last t.
Proof.
  intros Ht. destruct ts as [|u ts]; [done |].
  rewrite Join_snoc by done. rewrite <- app_assoc.
  induction (strings.Join (u :: ts) sep +:+ sep) as [|c a IH]; [done |].
  rewrite app_cons. simpl. rewrite IH.
  destruct (a +:+ t) eqn:E; [| done]. destruct a, t; done.
Qed.
(** ** The lines of a rendered note *)

Lemma cut_line (l rest : string) :
  Str.mem Str.LF l = false ->
  bufio.cut (l +:+ nl +:+ rest) = ((l +:+ nl) :: (bufio.cut rest).1, (bufio.cut rest).2).
Proof.
  intros H. induction l as [|c l IH]; sapp.
  - by destruct (bufio.cut rest).
  - destruct (decide (c = Str.LF)); [done |].
    rewrite IH by done. simpl. done.
Qed.

Lemma chomp_line (l : string) : bufio.chomp (l +:+ nl) = l.
Proof.
  unfold bufio.chomp. rewrite app_length. simpl.
  replace (String.length l + 1 - 1)%nat with (String.length l) by lia.
  apply take_app_length.
Qed.

Lemma dropCR_keep (s : string) : Str.last s <> Some Str.CR -> bufio.dropCR s = s.
Proof.
  induction s as [|c s IH]; [done |]. simpl. destruct s as [|b s].
  - intros H. rewrite decide_False; [done |]. congruence.
  - intros H. f_equal. by apply IH.
Qed.

Lemma last_app (a b : string) : b <> "" -> Str.last (a +:+ b) = Str.last b.
Proof.
  intros Hb. induction a as [|c a IH]; sapp; [done |].
  rewrite IH. destruct (a +:+ b) eqn:E; [| done].
  destruct a, b; done.
Qed.

Lemma token_line (l : string) :
  Str.last l <> Some Str.CR -> token (l +:+ nl) = l.
Proof. intros H. unfold token. rewrite chomp_line. by apply dropCR_keep. Qed.

Lemma len_line (l : string) : Str.len (l +:+ nl) = Str.len l + 1.
Proof. unfold Str.len. rewrite app_length. simpl. lia. Qed.

Lemma len_app (a b : string) : Str.len (a +:+ b) = Str.len a + Str.len b.
Proof. unfold Str.len. rewrite app_length. lia. Qed.

(** ** The text of a time stamp *)

Lemma plain_app (a b : string) :
  Str.all plainByte (a +:+ b) = Str.all plainByte a && Str.all plainByte b.
Proof. apply all_app. Qed.

Lemma plain_fixedDigits (w : nat) (x : Z) : Str.all plainByte (time.fixedDigits w x) = true.
Proof.
  revert x; induction w as [|w IH]; intros x; [done |].
  cbn [time.fixedDigits]. rewrite plain_app, IH. cbn [Str.all andb].
  pose proof (Z.mod_pos_bound x 10 ltac:(lia)) as Hd.
  assert (x mod 10 = 0 \/ x mod 10 = 1 \/ x mod 10 = 2 \/ x mod 10 = 3 \/ x mod 10 = 4
          \/ x mod 10 = 5 \/ x mod 10 = 6 \/ x mod 10 = 7 \/ x mod 10 = 8 \/ x mod 10 = 9)
    as E by lia.
  repeat (destruct E as [-> | E]; [reflexivity |]). by rewrite E.
Qed.

Lemma plain_appendInt (x : Z) (w : nat) : Str.all plainByte (time.appendInt x w) = true.
Proof.
  unfold time.appendInt. rewrite plain_app, plain_fixedDigits.
  by destruct (x <? 0).
Qed.

Lemma plain_formatZone (off : Z) : Str.all plainByte (time.formatZone off) = true.
Proof.
  unfold time.formatZone. destruct (off =? 0); [done |]. cbv zeta.
  rewrite !plain_app, !plain_appendInt.
  by destruct (_ <? 0).
Qed.

Lemma plain_Format (t : time.Time) : Str.all plainByte (time.Format t) = true.
Proof.
  unfold time.Format.
  rewrite !plain_app, !plain_appendInt, plain_formatZone. done.
Qed.

Lemma fixedDigits_length (w : nat) (x : Z) : String.length (time.fixedDigits w x) = w.
Proof.
  revert x; induction w as [|w IH]; intros x; [done |].
  cbn [time.fixedDigits]. rewrite app_length, IH. simpl. lia.
Qed.

Lemma appendInt_len (x : Z) (w : nat) :
  0 <= x < 10 ^ Z.of_nat w -> Str.len (time.appendInt x w) = Z.of_nat w.
Proof.
  intros H. rewrite appendInt_fixed by done. unfold Str.len.
  by rewrite fixedDigits_length.
Qed.

Lemma formatZone_len (off : Z) :
  -86400 < off < 86400 -> Str.len (time.formatZone off) <= 6.
Proof.
  intros Hb. unfold time.formatZone.
  destruct (off =? 0) eqn:E0; [done |]. cbv zeta.
  set (zone := Z.quot off 60).
  assert (0 <= Z.abs zone < 1440) as Ha.
  { subst zone. rewrite <- (Z.quot_abs off 60) by lia. change (Z.abs 60) with 60.
    rewrite Z.quot_div_nonneg by lia. split; [apply Z.div_pos; lia |].
    apply Z.div_lt_upper_bound; lia. }
  assert (0 <= Z.quot (Z.abs zone) 60 < 100) as H1.
  { rewrite Z.quot_div_nonneg by lia. split; [apply Z.div_pos; lia |].
    apply Z.div_lt_upper_bound; lia. }
  assert (0 <= Z.rem (Z.abs zone) 60 < 100) as H2.
  { rewrite Z.rem_mod_nonneg by lia. pose proof (Z.mod_pos_bound (Z.abs zone) 60). lia. }
  rewrite !len_app, !appendInt_len by (change (10 ^ Z.of_nat 2) with 100; lia).
  destruct (zone <? 0); unfold Str.len; simpl; lia.
Qed.

Lemma Format_len (t : time.Time) : printable t -> Str.len (time.Format t) <= 25.
Proof.
  intros (Hv & Hy & Hr & Hb).
  unfold time.valid in Hv.
  repeat (apply andb_true_iff in Hv as [Hv ?]).
  assert (time.daysIn (time.month t) (time.year t) <= 31)
    by (unfold time.daysIn; repeat case_match; lia).
  pose proof (formatZone_len _ Hb).
  unfold time.Format.
  rewrite !len_app.
  rewrite (appendInt_len _ 4) by (change (10 ^ Z.of_nat 4) with 10000; lia).
  rewrite !(appendInt_len _ 2) by (change (10 ^ Z.of_nat 2) with 100; lia).
  change (Str.len "-") with 1. change (Str.len "T") with 1. change (Str.len ":") with 1.
  lia.
Qed.
(** ** Where [Create] puts the note *)

Lemma Dir_FilePath (note : Note) :
  normalElem (Category note) -> normalElem (File note) ->
  filepath.Dir (FilePath note) = DirPath note
  /\ filepath.Base (DirPath note) = Category note
  /\ filepath.Base (FilePath note) = File note.
Proof.
  intros Hc Hf. rewrite <- Join_DirPath.
  split; [| split; [by apply Base_Join | by apply Base_Join]].
  unfold DirPath.
  destruct (Join2_assemble (HomePath (Cfg note)) (Category note) Hc) as (r & st & Hst & ->).
  pose proof (cleaned_cons r st _ Hst Hc) as Hst'.
  pose proof (assemble_not_nil r (Category note :: st)) as Hn.
  unfold filepath.Join. rewrite decide_False by done.
  cbn [strings.Join].
  rewrite Clean_assemble_snoc by done.
  rewrite assemble_cons by done.
  unfold filepath.Dir.
  rewrite <- app_assoc, pathSplit_app_nosep by (by destruct Hf as (_ & _ & _ & ?)).
  rewrite pathSplit_slash. cbn [fst].
  by apply Clean_assemble_slash.
Qed.

Lemma Replace_mem (c old new : ascii) (s : string) :
  c <> old -> c <> new -> Str.mem c (strings.Replace s old new) = Str.mem c s.
Proof.
  intros H1 H2. induction s as [|a s IH]; [done |]. simpl.
  destruct (decide (a = old)) as [->|].
  - rewrite decide_False by done. rewrite (decide_False (P := old = c)) by done. done.
  - by rewrite IH.
Qed.

(** The file name [NewNote] makes is a single path element when the hint
    has no separator. *)
Lemma NewNote_fields (now : time.Time) (cat tags file title : string) (cfg : Config)
    (n : Note) :
  NewNote now cat tags file title cfg = Ok n ->
  Cfg n = cfg /\ Category n = cat /\ Tags n = Some (parseTags tags)
  /\ Created n = now /\ Title n = title /\ cat <> ""
  /\ (Str.mem "/"%char file = false -> normalElem (File n)).
Proof.
  unfold NewNote.
  destruct (decide (cat = "")); [done |].
  destruct (decide (file = "")) as [|Hf]; [done |].
  intros [= <-]. cbn [Cfg Category Tags Created Title File].
  rewrite collectTags_spec. do 6 (split; [done |]).
  intros Hm. set (f := strings.Replace file " "%char "-"%char).
  assert (Str.mem "/"%char f = false) as Hmf by (unfold f; by rewrite Replace_mem).
  assert (exists x, (if strings.HasSuffix f ".md" then f else f +:+ ".md") = x +:+ ".md")
    as [x Hx]
    by (destruct (strings.HasSuffix f ".md") eqn:E;
        [by apply HasSuffix_iff | by exists f]).
  repeat split.
  4: { destruct (strings.HasSuffix f ".md"); [done |]. by rewrite mem_app, Hmf. }
  all: rewrite Hx; intros E; apply (f_equal String.length) in E;
    rewrite app_length in E; simpl in E; lia.
Qed.

Lemma Create_ok_files (note : Note) (fs fs' : os.FS) :
  Create note fs = (fs', None) ->
  os.files fs' = <[FilePath note := mkStream (render note) None]> (os.files fs).
Proof.
  pose proof (MkdirAll_files (DirPath note) fs) as M.
  unfold Create. rewrite Join_DirPath.
  destruct (os.MkdirAll (DirPath note) fs) as [fs1 [e1|]]; simpl in M; [done |].
  destruct (os.Stat fs1 _) as [b|e2]; [done |].
  unfold os.WriteFile.
  destruct (os.IsDir fs1 _); cbn [wrap]; [done |].
  match goal with |- context [if ?b then _ else _] => destruct b end; cbn [wrap]; [| done].
  intros [= <-]. cbn [os.files]. by rewrite M.
Qed.

(** The file that [Create] wrote opens with the rendered note. *)
Lemma Create_Open (note : Note) (fs fs' : os.FS) :
  Create note fs = (fs', None) ->
  os.Open fs' (FilePath note) = Ok (mkStream (render note) None).
Proof.
  intros H. apply Create_ok_files in H. unfold os.Open.
  by rewrite H, lookup_insert_eq.
Qed.

(** ** A note written and read back *)

Lemma scanLoop_continue (path : string) (note n : Note) (tf t : bool) (l : string)
    (pending : list string) (tl : string) (stop : error) :
  oneLine l ->
  scanLine path note tf l = Continue n t ->
  scanLoop path note tf ((l +:+ nl) :: pending) tl stop = scanLoop path n t pending tl stop.
Proof.
  intros (_ & Hcr & Hlen) H. cbn [scanLoop].
  rewrite len_line. destruct (bufio.MaxScanTokenSize <? Str.len l + 1) eqn:E; [lia |].
  fold (token (l +:+ nl)). by rewrite token_line, H.
Qed.

Lemma scanLoop_break (path : string) (note n : Note) (tf t : bool) (l : string)
    (pending : list string) (tl : string) (stop : error) :
  oneLine l ->
  scanLine path note tf l = Break n t ->
  scanLoop path note tf ((l +:+ nl) :: pending) tl stop = Ok (n, t, None).
Proof.
  intros (_ & Hcr & Hlen) H. cbn [scanLoop].
  rewrite len_line. destruct (bufio.MaxScanTokenSize <? Str.len l + 1) eqn:E; [lia |].
  fold (token (l +:+ nl)). by rewrite token_line, H.
Qed.

Lemma scanLine_bar (path : string) (note : Note) (k : nat) :
  (0 < k)%nat -> Title note <> "" ->
  scanLine path note false (strings.Repeat "=" k) = next note true.
Proof.
  intros Hk Ht. unfold scanLine. simpl negb. cbv iota.
  assert (reTitleBar (strings.Repeat "=" k) = true) as ->.
  { unfold reTitleBar. rewrite Repeat_all, andb_true_r.
    apply negb_true_iff, bool_decide_eq_false. intros E.
    apply (f_equal String.length) in E. rewrite Repeat_length in E. simpl in E. lia. }
  by rewrite decide_False.
Qed.

Lemma scanLine_category_line (path : string) (note : Note) (cat : string) :
  strings.TrimSpace cat = cat -> filepath.Base (filepath.Dir path) = cat ->
  scanLine path note true ("- Category: " +:+ cat) = next (withCategory note cat) true.
Proof.
  intros Ht Hb. unfold scanLine. simpl negb. cbv iota.
  unfold strings.HasPrefix. rewrite prefix_app.
  change 12%nat with (String.length "- Category: "). rewrite drop_app_length, Ht.
  cbn [Category withCategory]. by rewrite decide_True.
Qed.

Lemma scanLine_tags_line (path : string) (note : Note) (joined : string) :
  scanLine path note true ("- Tags: " +:+ joined)
  = next (withTags note (parseTags (" " +:+ joined))) true.
Proof.
  unfold scanLine. simpl negb. cbv iota.
  assert (strings.HasPrefix ("- Tags: " +:+ joined) "- Category: " = false) as ->.
  { unfold strings.HasPrefix. repeat (rewrite app_cons || rewrite app_nil_l). done. }
  assert (strings.HasPrefix ("- Tags: " +:+ joined) "- Tags:" = true) as ->.
  { unfold strings.HasPrefix. change "- Tags: " with ("- Tags:" +:+ " ").
    rewrite app_assoc. apply prefix_app. }
  change "- Tags: " with ("- Tags:" +:+ " "). rewrite app_assoc.
  change 7%nat with (String.length "- Tags:"). rewrite drop_app_length.
  by rewrite collectTags_spec, parseTags_TrimSpace.
Qed.

Lemma scanLine_created_line (path : string) (note : Note) (value : string) (t : time.Time) :
  strings.TrimSpace value = value -> time.Parse value = Some t ->
  scanLine path note true ("- Created: " +:+ value) = next (withCreated note t) true.
Proof.
  intros Ht Hp. unfold scanLine. simpl negb. cbv iota.
  assert (strings.HasPrefix ("- Created: " +:+ value) "- Category: " = false) as ->.
  { unfold strings.HasPrefix. repeat (rewrite app_cons || rewrite app_nil_l). done. }
  assert (strings.HasPrefix ("- Created: " +:+ value) "- Tags:" = false) as ->.
  { unfold strings.HasPrefix. repeat (rewrite app_cons || rewrite app_nil_l). done. }
  unfold strings.HasPrefix. rewrite prefix_app.
  change 11%nat with (String.length "- Created: "). rewrite drop_app_length, Ht, Hp.
  done.
Qed.

Lemma Repeat_mem (c a : ascii) (k : nat) :
  c <> a -> Str.mem c (strings.Repeat (String a "") k) = false.
Proof.
  intros H. induction k as [|k IH]; [done |]. simpl. rewrite ?app_cons, ?app_nil_l.
  simpl. by rewrite decide_False.
Qed.

Lemma Repeat_last (a : ascii) (k : nat) (c : ascii) :
  Str.last (strings.Repeat (String a "") k) = Some c -> c = a.
Proof.
  induction k as [|k IH]; [done |]. simpl. rewrite ?app_cons, ?app_nil_l. simpl.
  destruct (strings.Repeat (String a "") k) eqn:E; [by intros [= <-] | done].
Qed.

Lemma cut_cons (l rest : string) (ls : list string) (tl : string) :
  Str.mem Str.LF l = false -> bufio.cut rest = (ls, tl) ->
  bufio.cut (l +:+ nl +:+ rest) = ((l +:+ nl) :: ls, tl).
Proof. intros H E. by rewrite cut_line, E. Qed.

(** The lines of the file [Create] writes. *)
Lemma cut_render (note : Note) :
  Str.mem Str.LF (titleOf note) = false ->
  Str.mem Str.LF (Category note) = false ->
  Str.mem Str.LF (strings.Join (default [] (Tags note)) ", ") = false ->
  bufio.cut (render note) =
  ([titleOf note +:+ nl;
    strings.Repeat "=" (String.length (titleOf note)) +:+ nl;
    ("- Category: " +:+ Category note) +:+ nl;
    ("- Tags: " +:+ strings.Join (default [] (Tags note)) ", ") +:+ nl;
    ("- Created: " +:+ time.Format (Created note)) +:+ nl;
    nl], "").
Proof.
  intros H1 H2 H3. unfold render. cbv zeta.
  rewrite !app_assoc.
  apply cut_cons; [done |].
  apply cut_cons; [by apply Repeat_mem |].
  rewrite <- (app_assoc "- Category: ").
  apply cut_cons; [by rewrite mem_app, H2 |].
  rewrite <- (app_assoc "- Tags: ").
  apply cut_cons; [by rewrite mem_app, H3 |].
  rewrite <- (app_assoc "- Created: ").
  apply cut_cons; [| done].
  rewrite mem_app. apply orb_false_iff. split; [done |].
  apply plain_mem; [done | apply plain_Format].
Qed.
Lemma next_no_tags (note : Note) (tf : bool) :
  Tags note = None -> next note tf = Continue note tf.
Proof.
  intros H. unfold next, complete. rewrite H.
  rewrite (bool_decide_eq_false_2 (is_Some None)) by (by intros [? ?]).
  by rewrite andb_false_r.
Qed.

Lemma next_no_created (note : Note) (tf : bool) :
  time.IsZero (Created note) = true -> next note tf = Continue note tf.
Proof.
  intros H. unfold next, complete. rewrite H. cbn [negb].
  by rewrite andb_false_r.
Qed.

Lemma next_complete (note : Note) (tf : bool) :
  Category note <> "" -> is_Some (Tags note) ->
  time.IsZero (Created note) = false -> Title note <> "" ->
  next note tf = Break note tf.
Proof.
  intros H1 H2 H3 H4. unfold next, complete.
  rewrite (bool_decide_eq_false_2 (Category note = "")) by done.
  rewrite (bool_decide_eq_true_2 (is_Some (Tags note))) by done.
  rewrite H3. by rewrite (bool_decide_eq_false_2 (Title note = "")) by done.
Qed.

Lemma last_app_cases (a b : string) :
  Str.last (a +:+ b) = if decide (b = "") then Str.last a else Str.last b.
Proof.
  destruct (decide (b = "")) as [->|H]; [by rewrite app_nil_r | by apply last_app].
Qed.

(** [LoadNote] on a file that holds a rendered note. *)
Lemma LoadNote_render (canonPath : string -> string) (open : string -> result Stream)
    (note : Note) (ts : list string) (path : string) (cfg : Config) :
  open path = Ok (mkStream (render note) None) ->
  filepath.Base (filepath.Dir path) = Category note ->
  Category note <> "" ->
  strings.TrimSpace (Category note) = Category note ->
  titleOf note <> "" ->
  reTitleBar (titleOf note) = false ->
  oneLine (titleOf note) ->
  oneLine ("- Category: " +:+ Category note) ->
  Tags note = Some ts ->
  Forall tagOK ts ->
  oneLine ("- Tags: " +:+ strings.Join ts ", ") ->
  printable (Created note) ->
  time.IsZero (atSecond (Created note)) = false ->
  LoadNote canonPath open path cfg =
  Ok (mkNote cfg (Category note) (Some ts) (atSecond (Created note))
             (filepath.Base path) (titleOf note)).
Proof.
  intros Ho Hb Hcn Hct Htn Htb Ht Hc Hts Hok Hg Hp Hz.
  assert (oneLine (strings.Repeat "=" (String.length (titleOf note)))) as Hbar.
  { destruct Ht as (_ & _ & Hl). split; [by apply Repeat_mem |]. split.
    - intros E. by apply Repeat_last in E.
    - unfold Str.len in *. by rewrite Repeat_length. }
  assert (oneLine ("- Created: " +:+ time.Format (Created note))) as Hd.
  { pose proof (plain_Format (Created note)) as Hpl. split; [| split].
    - rewrite mem_app. apply orb_false_iff. split; [done |]. by apply plain_mem.
    - rewrite last_app_cases. destruct (decide _); [done |].
      intros E. by apply (plain_last _ _ Hpl) in E.
    - rewrite len_app. pose proof (Format_len _ Hp).
      change (Str.len "- Created: ") with 11. unfold bufio.MaxScanTokenSize. lia. }
  unfold LoadNote, loadFrom, bufio.NewReader. rewrite Ho. cbn [data].
  rewrite cut_render; [| by destruct Ht | by destruct Hc as (Hm & _); rewrite mem_app in Hm;
                         apply orb_false_iff in Hm as [_ ?]
                       | rewrite Hts; cbn [default]; destruct Hg as (Hm & _);
                         rewrite mem_app in Hm; by apply orb_false_iff in Hm as [_ ?]].
  rewrite Hts. cbn [default bufio.pending bufio.rest bufio.stop].
  set (note0 := mkNote cfg "" None time.zero (filepath.Base path) "").
  rewrite (scanLoop_continue path note0 (withTitle note0 (titleOf note)) false false);
    [| done | by rewrite scanLine_no_bar, next_no_category].
  rewrite (scanLoop_continue path _ (withTitle note0 (titleOf note)) false true);
    [| done |].
  2: { rewrite scanLine_bar; [by apply next_no_category | | done].
       destruct (titleOf note); [done | simpl; lia]. }
  rewrite (scanLoop_continue path _
             (withCategory (withTitle note0 (titleOf note)) (Category note)) true true);
    [| done | by rewrite scanLine_category_line, next_no_tags].
  rewrite (scanLoop_continue path _
             (withTags (withCategory (withTitle note0 (titleOf note)) (Category note)) ts)
             true true);
    [| done | by rewrite scanLine_tags_line, parseTags_Join, next_no_created].
  rewrite (scanLoop_break path _
             (withCreated
                (withTags (withCategory (withTitle note0 (titleOf note)) (Category note)) ts)
                (atSecond (Created note)))
             true true);
    [| done |].
  2: { rewrite (scanLine_created_line _ _ _ (atSecond (Created note)));
         [| apply plain_TrimSpace, plain_Format | by apply Parse_Format].
       apply next_complete; cbn [Category Tags Created Title withCreated withTags
                                 withCategory withTitle note0]; done. }
  cbn [negb Category Tags Created Title Cfg File withCreated withTags withCategory
       withTitle note0].
  rewrite (bool_decide_eq_false_2 (Category note = "")) by done.
  rewrite (bool_decide_eq_false_2 (Some ts = None)) by done.
  rewrite Hz. done.
Qed.

(** C1 (amended): a note made by [NewNote] and written by [Create] loads
    back from its path with the same category and tags, the creation time
    at whole seconds with its zone offset, and the title [Create] wrote (the
    note's, or the file name without its extension when that is empty),
    provided the note can be told from its file: the category is a single
    path element that trimming leaves as it is, the file name hint has no
    separator, the title written is not empty, not a run of [=] only and
    stays on its line, category and tags have no line feed and their lines
    fit the scanner's buffer, and the creation time is one that RFC 3339
    text carries (a year of four digits, a zone offset of whole minutes
    within a day) and not the zero time. *)
Theorem C1_round_trip :
  forall (canonPath : string -> string) (now : time.Time)
         (cat tags file title : string) (cfg : Config) (n : Note) (fs fs' : os.FS),
    NewNote now cat tags file title cfg = Ok n ->
    Create n fs = (fs', None) ->
    normalElem cat ->
    strings.TrimSpace cat = cat ->
    Str.mem Str.LF cat = false ->
    Str.len ("- Category: " +:+ cat) < bufio.MaxScanTokenSize ->
    Str.mem "/"%char file = false ->
    titleOf n <> "" ->
    reTitleBar (titleOf n) = false ->
    oneLine (titleOf n) ->
    Str.mem Str.LF tags = false ->
    Str.len ("- Tags: " +:+ strings.Join (parseTags tags) ", ") < bufio.MaxScanTokenSize ->
    printable now ->
    time.IsZero (atSecond now) = false ->
    LoadNote canonPath (os.Open fs') (FilePath n) cfg =
    Ok (mkNote (Cfg n) (Category n) (Tags n) (atSecond (Created n)) (File n) (titleOf n))
    /\ titleOf n = (if decide (Title n = "")
                    then strings.TrimSuffix (File n) (filepath.Ext (File n))
                    else Title n)
    /\ roundTrip canonPath n fs.
Proof.
  intros cp now cat tags file title cfg n fs fs' Hn Hc Hcat Htrim Hlf Hlen Hfile
         Htn Htb Ht Htags Htlen Hp Hz.
  assert (forall fs1, Create n fs = (fs1, None) ->
            LoadNote cp (os.Open fs1) (FilePath n) cfg =
            Ok (mkNote (Cfg n) (Category n) (Tags n) (atSecond (Created n)) (File n)
                       (titleOf n))) as R.
  2: { split; [by apply R |]. split; [done |].
       intros fs1 H1.
       destruct (NewNote_fields _ _ _ _ _ _ _ Hn) as (-> & _).
       eexists. split; [by apply R |]. done. }
  clear fs' Hc. intros fs' Hc.
  destruct (NewNote_fields _ _ _ _ _ _ _ Hn) as (Ecfg & Ecat & Etags & Ecr & _ & Hne & Hf).
  specialize (Hf Hfile).
  destruct (Dir_FilePath n) as (Hd & Hbd & Hbf); [by rewrite Ecat | done |].
  rewrite (LoadNote_render cp (os.Open fs') n (parseTags tags) (FilePath n) cfg).
  - by rewrite Ecfg, Etags, Hbf.
  - by apply (Create_Open n fs).
  - by rewrite Hd, Hbd.
  - by rewrite Ecat.
  - by rewrite Ecat.
  - done.
  - done.
  - done.
  - rewrite Ecat. split; [| split; [| done]].
    + rewrite mem_app. by rewrite Hlf.
    + rewrite last_app by done. intros E.
      by apply (trimmed_last _ _ Htrim) in E.
  - done.
  - apply parseTags_ok.
  - pose proof (parseTags_ok tags) as Hok. pose proof (parseTags_mem Str.LF tags Htags) as Hm.
    split; [| split; [| done]].
    + rewrite mem_app. rewrite Join_mem by done. done.
    + rewrite last_app_cases. destruct (decide _) as [|Hj]; [done |].
      destruct (parseTags tags) as [|t0 ts0] using rev_ind; [done |].
      apply Forall_app in Hok as [_ [(Hn0 & Ht0 & _) _]%Forall_cons].
      rewrite Join_last by done. intros E.
      by apply (trimmed_last _ _ Ht0) in E.
  - by rewrite Ecr.
  - by rewrite Ecr.
Qed.

Lemma C1_round_trip_witness :
  LoadNote id
    (os.Open (Create (mkNote (mkConfig "/n" "") "blog" (Some ["foo"; "bar"])
                        (time.mkTime 2018 11 3 9 5 0 123 32400) "my-post.md" "")
                     (os.mkFS ∅ ∅)).1)
    "/n/blog/my-post.md" (mkConfig "/n" "")
  = Ok (mkNote (mkConfig "/n" "") "blog" (Some ["foo"; "bar"])
          (time.mkTime 2018 11 3 9 5 0 0 32400) "my-post.md" "my-post").
Proof.
  pose (n := mkNote (mkConfig "/n" "") "blog" (Some ["foo"; "bar"])
               (time.mkTime 2018 11 3 9 5 0 123 32400) "my-post.md" "").
  refine (proj1 (C1_round_trip id (time.mkTime 2018 11 3 9 5 0 123 32400)
                   "blog" " foo,bar ,  " "my post" "" (mkConfig "/n" "") n
                   (os.mkFS ∅ ∅) (Create n (os.mkFS ∅ ∅)).1
                   eq_refl _ _ _ _ _ _ _ _ _ _ _ _ _)).
  - by vm_compute.
  - by repeat split.
  - by vm_compute.
  - by vm_compute.
  - by vm_compute.
  - by vm_compute.
  - by vm_compute.
  - by vm_compute.
  - repeat split; by vm_compute.
  - by vm_compute.
  - by vm_compute.
  - repeat split; by vm_compute.
  - by vm_compute.
Defined.

(** C1 as the specification words it, for every note of [NewNote], does
    not hold: [NewNote] accepts a category with a separator in it and
    [Create] writes the note below both directories, but [LoadNote] takes
    the inner directory for the category and rejects the file. *)
Lemma C1_counterexample :
  ~ (forall (now : time.Time) (cat tags file title : string) (cfg : Config)
            (n : Note) (fs : os.FS),
        NewNote now cat tags file title cfg = Ok n -> roundTrip id n fs).
Proof.
  intros H.
  pose (cfg := mkConfig "/n" "").
  pose (now := time.mkTime 2018 11 3 9 5 0 0 32400).
  pose (n := mkNote cfg "a/b" (Some []) now "p.md" "T").
  destruct (H now "a/b" "" "p" "T" cfg n (os.mkFS ∅ ∅) eq_refl
              (Create n (os.mkFS ∅ ∅)).1) as (n' & E & _).
  - by vm_compute.
  - vm_compute in E. discriminate.
Qed.

(** Further notes that do not come back: a category with white space
    around it is rejected as well, and a title of [=] only loads back as
    ["(no title)"]. *)
Lemma roundTrip_fails :
  let cfg := mkConfig "/n" "" in
  let now := time.mkTime 2018 11 3 9 5 0 0 32400 in
  let written (n : Note) := (Create n (os.mkFS ∅ ∅)).1 in
  (NewNote now "a/b" "" "p" "T" cfg = Ok (mkNote cfg "a/b" (Some []) now "p.md" "T")
   /\ (Create (mkNote cfg "a/b" (Some []) now "p.md" "T") (os.mkFS ∅ ∅)).2 = None
   /\ LoadNote id (os.Open (written (mkNote cfg "a/b" (Some []) now "p.md" "T")))
                  (FilePath (mkNote cfg "a/b" (Some []) now "p.md" "T")) cfg
      = Err (errMismatch "b" "a/b"))
  /\ (NewNote now " x" "" "p" "T" cfg = Ok (mkNote cfg " x" (Some []) now "p.md" "T")
      /\ (Create (mkNote cfg " x" (Some []) now "p.md" "T") (os.mkFS ∅ ∅)).2 = None
      /\ LoadNote id (os.Open (written (mkNote cfg " x" (Some []) now "p.md" "T")))
                     (FilePath (mkNote cfg " x" (Some []) now "p.md" "T")) cfg
         = Err (errMismatch " x" "x"))
  /\ (NewNote now "blog" "" "p" "==" cfg = Ok (mkNote cfg "blog" (Some []) now "p.md" "==")
      /\ (Create (mkNote cfg "blog" (Some []) now "p.md" "==") (os.mkFS ∅ ∅)).2 = None
      /\ LoadNote id (os.Open (written (mkNote cfg "blog" (Some []) now "p.md" "==")))
                     (FilePath (mkNote cfg "blog" (Some []) now "p.md" "==")) cfg
         = Ok (mkNote cfg "blog" (Some []) now "p.md" "(no title)")).
Proof. repeat split; vm_compute; reflexivity. Qed.
